(** * The dense matrix product of Eigen 2: [Eigen/src/Core/Product.h]

    A shallow embedding of the product expression node, of its lazy
    coefficient evaluators, of the product-mode classifier and of the
    cache-friendly kernel selector, together with the properties the
    specification states about them.

    Conventions.
    - C++ [int] values (sizes, indices, template integer arguments) are [Z].
    - The scalar type is a parameter with an addition and a multiplication
      about which nothing is assumed: two results are equal only when the
      same operations were applied in the same order, which is what equality
      of floating point results needs.
    - An [ei_assert] that fires is the outcome [AssertFail]; a template
      instantiation that does not exist (a member that is not declared, an
      ambiguous partial specialization, a recursion that never reaches a
      specialization) is the outcome [CompileError]. *)

From Stdlib Require Import ZArith List Bool Lia String.
Import ListNotations.
Local Open Scope Z_scope.

(** ** Outcomes *)

Inductive Exec (A : Type) : Type :=
| Ok (a : A)
| AssertFail
| CompileError.

Arguments Ok {A} a.
Arguments AssertFail {A}.
Arguments CompileError {A}.

Definition bind {A B : Type} (m : Exec A) (f : A -> Exec B) : Exec B :=
  match m with
  | Ok a => f a
  | AssertFail => AssertFail
  | CompileError => CompileError
  end.

Notation "x <- m ;; k" := (bind m (fun x => k))
  (at level 61, m at next level, right associativity).

(** [ei_assert(c)] followed by the rest of the function body. *)
Definition ei_assert {A : Type} (c : bool) (k : Exec A) : Exec A :=
  if c then k else AssertFail.

(** ** What [Product.h] takes from the rest of the library *)

(** Constants and macros declared outside [Product.h]. *)
Class Constants : Type := {
  Dynamic : Z;
  RowMajorBit : Z;
  DirectAccessBit : Z;
  PacketAccessBit : Z;
  ActualPacketAccessBit : Z;
  AlignedBit : Z;
  EvalBeforeNestingBit : Z;
  EvalBeforeAssigningBit : Z;
  HereditaryBits : Z;
  EIGEN_UNROLLING_LIMIT : Z;
  EIGEN_CACHEFRIENDLY_PRODUCT_THRESHOLD : Z
}.

(** The scalar type: its arithmetic, the conversion [Scalar(n)] from an
    integer literal, [operator==], complex conjugation, and the two costs of
    [NumTraits<Scalar>]. *)
Class ScalarOps (Scalar : Type) : Type := {
  add : Scalar -> Scalar -> Scalar;
  mul : Scalar -> Scalar -> Scalar;
  sub : Scalar -> Scalar -> Scalar;
  of_int : Z -> Scalar;
  eqb : Scalar -> Scalar -> bool;
  ei_conj : Scalar -> Scalar;
  MulCost : Z;
  AddCost : Z
}.

(** A vector seen through linear access [coeff(i)], as the dot product
    kernel reads it. *)
Record LinearView (Scalar : Type) : Type := {
  lv_size : Z;
  lv_coeff : Z -> Scalar
}.

Arguments lv_size {Scalar} _.
Arguments lv_coeff {Scalar} _ _.

(** The packet layer, [ei_packet_traits<Scalar>] and the vectorized dot
    product [ei_dot_impl<..., LinearVectorization, NoUnrolling>].
    [uninit_packet] is the content of a packet variable that is declared
    without an initializer. *)
Class PacketOps (Scalar Packet : Type) : Type := {
  PacketSize : Z;
  ei_pmul : Packet -> Packet -> Packet;
  ei_padd : Packet -> Packet -> Packet;
  ei_predux : Packet -> Scalar;
  uninit_packet : Packet;
  ei_dot_impl : LinearView Scalar -> LinearView Scalar -> Scalar
}.

Inductive StorageOrder : Type := ColMajor | RowMajor.
Inductive Access : Type := NoDirectAccess | HasDirectAccess.
Inductive ProductModes : Type := NormalProduct | CacheFriendlyProduct.
Inductive Vectorization : Type := NoVectorization | InnerVectorization.

(** The compile-time traits of an operand type: [ei_traits<T>] and the two
    members of [ei_blas_traits<T>] that [Product.h] reads. *)
Record Traits : Type := {
  ScalarName : string;
  RowsAtCompileTime : Z;
  ColsAtCompileTime : Z;
  MaxRowsAtCompileTime : Z;
  MaxColsAtCompileTime : Z;
  Flags : Z;
  CoeffReadCost : Z;
  ActualAccess : Access;
  NeedToConjugate : bool
}.

(** A matrix seen through [rows()], [cols()] and [coeff(i,j)]. *)
Record Matrix (Scalar : Type) : Type := {
  m_rows : Z;
  m_cols : Z;
  m_coeff : Z -> Z -> Scalar
}.

Arguments m_rows {Scalar} _.
Arguments m_cols {Scalar} _.
Arguments m_coeff {Scalar} _ _ _.

(** An operand expression: its static traits, its run-time view, its
    aligned packet access, and what [ei_blas_traits] extracts from it. *)
Record Operand (Scalar Packet : Type) : Type := {
  traits : Traits;
  view : Matrix Scalar;
  packet : Z -> Z -> Packet;
  extract : Matrix Scalar;
  extractScalarFactor : Scalar
}.

Arguments traits {Scalar Packet} _.
Arguments view {Scalar Packet} _.
Arguments packet {Scalar Packet} _ _ _.
Arguments extract {Scalar Packet} _.
Arguments extractScalarFactor {Scalar Packet} _.

(** [class Product]: the two nested operands and the product mode. *)
Record Product (Scalar Packet : Type) : Type := {
  m_lhs : Operand Scalar Packet;
  m_rhs : Operand Scalar Packet;
  ProductMode : ProductModes
}.

Arguments m_lhs {Scalar Packet} _.
Arguments m_rhs {Scalar Packet} _.
Arguments ProductMode {Scalar Packet} _.

(** ** Loops *)

(** [for (int i = first; i < bound; ++i) s = body i s;] *)
Fixpoint for_steps {St : Type} (n : nat) (i : Z) (body : Z -> St -> St) (s : St) : St :=
  match n with
  | O => s
  | S n' => for_steps n' (i + 1) body (body i s)
  end.

Definition for_loop {St : Type} (first bound : Z) (body : Z -> St -> St) (s : St) : St :=
  for_steps (Z.to_nat (bound - first)) first body s.

(** The indices [first, first+1, ..., first+n-1]. *)
Definition Zrange (first : Z) (n : nat) : list Z :=
  map (fun k => first + Z.of_nat k) (seq 0 n).

Section ProductDefinitions.

Context {K : Constants}.
Context {Scalar Packet : Type}.
Context {SO : ScalarOps Scalar}.
Context {PO : PacketOps Scalar Packet}.

Local Notation "x [+] y" := (add x y) (at level 50, left associativity).
Local Notation "x [*] y" := (mul x y) (at level 40, left associativity).

Definition rows_of (x : Operand Scalar Packet) : Z := m_rows (view x).
Definition cols_of (x : Operand Scalar Packet) : Z := m_cols (view x).
Definition coeff_of (x : Operand Scalar Packet) (i j : Z) : Scalar := m_coeff (view x) i j.

(** A flag test [Flags & Bit] used as a condition. *)
Definition has_bit (flags bit : Z) : bool := negb (Z.land flags bit =? 0).

(** *** Lazy coefficient evaluation, scalar path *)

(** [ei_product_coeff_impl<NoVectorization, 0, ...>::run] *)
Definition coeff_impl_NoVectorization_0
    (row col : Z) (lhs rhs : Operand Scalar Packet) (res : Scalar) : Exec Scalar :=
  Ok (coeff_of lhs row 0 [*] coeff_of rhs 0 col).

(** [ei_product_coeff_impl<NoVectorization, Dynamic, ...>::run] *)
Definition coeff_impl_NoVectorization_Dynamic
    (row col : Z) (lhs rhs : Operand Scalar Packet) (res : Scalar) : Exec Scalar :=
  ei_assert (cols_of lhs >? 0)
    (Ok (for_loop 1 (cols_of lhs)
           (fun i res => res [+] coeff_of lhs row i [*] coeff_of rhs i col)
           (coeff_of lhs row 0 [*] coeff_of rhs 0 col))).

(** [ei_product_coeff_impl<NoVectorization, -1, ...>::run], whose body is
    empty: [res] is left as it was. *)
Definition coeff_impl_NoVectorization_m1
    (row col : Z) (lhs rhs : Operand Scalar Packet) (res : Scalar) : Exec Scalar :=
  Ok res.

(** [ei_product_coeff_impl<NoVectorization, Index, ...>::run]. The three
    specializations for [Dynamic], [0] and [-1] are chosen by the value of
    [Index] (the three values are distinct, or the file would define one
    specialization twice); any other [Index] is the primary template, which
    instantiates [Index-1] first. [depth] bounds the nesting of
    instantiations. *)
Fixpoint coeff_impl_NoVectorization_rec (depth : nat) (Index : Z)
    (row col : Z) (lhs rhs : Operand Scalar Packet) (res : Scalar) : Exec Scalar :=
  if Index =? Dynamic then coeff_impl_NoVectorization_Dynamic row col lhs rhs res
  else if Index =? 0 then coeff_impl_NoVectorization_0 row col lhs rhs res
  else if Index =? -1 then coeff_impl_NoVectorization_m1 row col lhs rhs res
  else
    match depth with
    | O => CompileError
    | S depth' =>
        res' <- coeff_impl_NoVectorization_rec depth' (Index - 1) row col lhs rhs res ;;
        Ok (res' [+] coeff_of lhs row Index [*] coeff_of rhs Index col)
    end.

(** A nesting depth that every terminating chain [Index, Index-1, ...]
    stays below: the chain stops at [0] from above, or at [Dynamic]. *)
Definition instantiation_depth (Index : Z) : nat :=
  Z.to_nat (Z.abs Index + Z.abs Dynamic).

Definition coeff_impl_NoVectorization (Index : Z)
    (row col : Z) (lhs rhs : Operand Scalar Packet) (res : Scalar) : Exec Scalar :=
  coeff_impl_NoVectorization_rec (instantiation_depth Index) Index row col lhs rhs res.

(** *** Lazy coefficient evaluation, inner vectorization *)

(** [ei_product_coeff_vectorized_unroller<Index, ...>::run] *)
Fixpoint coeff_vectorized_unroller_rec (depth : nat) (Index : Z)
    (row col : Z) (lhs rhs : Operand Scalar Packet) (pres : Packet) : Exec Packet :=
  if Index =? 0 then Ok (ei_pmul (packet lhs row 0) (packet rhs 0 col))
  else
    match depth with
    | O => CompileError
    | S depth' =>
        pres' <- coeff_vectorized_unroller_rec depth' (Index - PacketSize) row col lhs rhs pres ;;
        Ok (ei_padd pres' (ei_pmul (packet lhs row Index) (packet rhs Index col)))
    end.

Definition coeff_vectorized_unroller (Index : Z)
    (row col : Z) (lhs rhs : Operand Scalar Packet) (pres : Packet) : Exec Packet :=
  coeff_vectorized_unroller_rec (Z.to_nat (Z.abs Index)) Index row col lhs rhs pres.

(** [lhs.row(row)] and [rhs.col(col)] as the dot product reads them, and a
    vector operand read through [coeff(i)]. *)
Definition row_block (x : Operand Scalar Packet) (row : Z) : LinearView Scalar :=
  {| lv_size := cols_of x; lv_coeff := fun i => coeff_of x row i |}.

Definition col_block (x : Operand Scalar Packet) (col : Z) : LinearView Scalar :=
  {| lv_size := rows_of x; lv_coeff := fun i => coeff_of x i col |}.

Definition as_row_vector (x : Operand Scalar Packet) : LinearView Scalar :=
  {| lv_size := cols_of x; lv_coeff := fun i => coeff_of x 0 i |}.

Definition as_col_vector (x : Operand Scalar Packet) : LinearView Scalar :=
  {| lv_size := rows_of x; lv_coeff := fun i => coeff_of x i 0 |}.

(** [ei_product_coeff_vectorized_dyn_selector<Lhs, Rhs, LhsRows, RhsCols>::run] *)
Definition coeff_vectorized_dyn_selector
    (row col : Z) (lhs rhs : Operand Scalar Packet) (res : Scalar) : Exec Scalar :=
  let LhsRows := RowsAtCompileTime (traits lhs) in
  let RhsCols := ColsAtCompileTime (traits rhs) in
  if (LhsRows =? 1) && (RhsCols =? 1) then
    Ok (ei_dot_impl (as_row_vector lhs) (as_col_vector rhs))
  else if LhsRows =? 1 then
    Ok (ei_dot_impl (as_row_vector lhs) (col_block rhs col))
  else if RhsCols =? 1 then
    Ok (ei_dot_impl (row_block lhs row) (as_col_vector rhs))
  else
    Ok (ei_dot_impl (row_block lhs row) (col_block rhs col)).

(** [ei_product_coeff_impl<InnerVectorization, Index, ...>::run] and its
    specialization for [Dynamic]. The scalar evaluator is run on [res]
    before [res] is overwritten by the reduced packet. *)
Definition coeff_impl_InnerVectorization (Index : Z)
    (row col : Z) (lhs rhs : Operand Scalar Packet) (res : Scalar) : Exec Scalar :=
  if Index =? Dynamic then coeff_vectorized_dyn_selector row col lhs rhs res
  else
    pres <- coeff_vectorized_unroller (Index + 1 - PacketSize) row col lhs rhs uninit_packet ;;
    _ <- coeff_impl_NoVectorization Index row col lhs rhs res ;;
    Ok (ei_predux pres).

(** [ei_product_coeff_impl<VectorizationMode, Index, Lhs, Rhs, RetScalar>::run] *)
Definition ei_product_coeff_impl (VectorizationMode : Vectorization) (Index : Z)
    (row col : Z) (lhs rhs : Operand Scalar Packet) (res : Scalar) : Exec Scalar :=
  match VectorizationMode with
  | NoVectorization => coeff_impl_NoVectorization Index row col lhs rhs res
  | InnerVectorization => coeff_impl_InnerVectorization Index row col lhs rhs res
  end.

(** *** [ei_traits<Product<LhsNested, RhsNested, ProductMode>>] *)

Definition LhsFlags (p : Product Scalar Packet) : Z := Flags (traits (m_lhs p)).
Definition RhsFlags (p : Product Scalar Packet) : Z := Flags (traits (m_rhs p)).

Definition InnerSize (p : Product Scalar Packet) : Z :=
  Z.min (ColsAtCompileTime (traits (m_lhs p))) (RowsAtCompileTime (traits (m_rhs p))).

Definition LhsRowMajor (p : Product Scalar Packet) : bool := has_bit (LhsFlags p) RowMajorBit.
Definition RhsRowMajor (p : Product Scalar Packet) : bool := has_bit (RhsFlags p) RowMajorBit.

Definition Product_CoeffReadCost (p : Product Scalar Packet) : Z :=
  if InnerSize p =? Dynamic then Dynamic
  else InnerSize p * (MulCost + CoeffReadCost (traits (m_lhs p)) + CoeffReadCost (traits (m_rhs p)))
       + (InnerSize p - 1) * AddCost.

Definition Product_RowsAtCompileTime (p : Product Scalar Packet) : Z :=
  RowsAtCompileTime (traits (m_lhs p)).
Definition Product_ColsAtCompileTime (p : Product Scalar Packet) : Z :=
  ColsAtCompileTime (traits (m_rhs p)).

Definition CanVectorizeRhs (p : Product Scalar Packet) : bool :=
  RhsRowMajor p && has_bit (RhsFlags p) PacketAccessBit
  && ((Product_ColsAtCompileTime p =? Dynamic)
      || (Z.rem (Product_ColsAtCompileTime p) PacketSize =? 0)).

Definition CanVectorizeLhs (p : Product Scalar Packet) : bool :=
  negb (LhsRowMajor p) && has_bit (LhsFlags p) PacketAccessBit
  && ((Product_RowsAtCompileTime p =? Dynamic)
      || (Z.rem (Product_RowsAtCompileTime p) PacketSize =? 0)).

Definition EvalToRowMajor (p : Product Scalar Packet) : bool :=
  RhsRowMajor p
  && match ProductMode p with
     | CacheFriendlyProduct => LhsRowMajor p
     | NormalProduct => negb (CanVectorizeLhs p)
     end.

Definition RemovedBits (p : Product Scalar Packet) : Z :=
  Z.lnot (if EvalToRowMajor p then 0 else RowMajorBit).

Definition Product_Flags (p : Product Scalar Packet) : Z :=
  Z.lor (Z.lor (Z.lor (Z.lor
    (Z.land (Z.land (Z.lor (LhsFlags p) (RhsFlags p)) HereditaryBits) (RemovedBits p))
    EvalBeforeAssigningBit)
    EvalBeforeNestingBit)
    (if CanVectorizeLhs p || CanVectorizeRhs p then PacketAccessBit else 0))
    (Z.land (Z.land (LhsFlags p) (RhsFlags p)) AlignedBit).

Definition CanVectorizeInner (p : Product Scalar Packet) : bool :=
  LhsRowMajor p && negb (RhsRowMajor p)
  && has_bit (Z.land (LhsFlags p) (RhsFlags p)) ActualPacketAccessBit
  && (Z.rem (InnerSize p) PacketSize =? 0).

(** *** [class Product] *)

Definition Unroll (p : Product Scalar Packet) : bool :=
  Product_CoeffReadCost p <=? EIGEN_UNROLLING_LIMIT.

Definition ScalarCoeffImpl_mode (p : Product Scalar Packet) : Vectorization :=
  if CanVectorizeInner p then InnerVectorization else NoVectorization.

Definition ScalarCoeffImpl_Index (p : Product Scalar Packet) : Z :=
  if Unroll p then InnerSize p - 1 else Dynamic.

Definition ScalarCoeffImpl (p : Product Scalar Packet) :
    Z -> Z -> Operand Scalar Packet -> Operand Scalar Packet -> Scalar -> Exec Scalar :=
  ei_product_coeff_impl (ScalarCoeffImpl_mode p) (ScalarCoeffImpl_Index p).

(** The constructor on the operands of a product that exists: it keeps the
    operands and asserts that the inner dimensions agree. Its static
    assertion on the real scalar types was made for the same operand types
    when that product was constructed; [Product_construct] below is the
    constructor on arbitrary operands. *)
Definition Product_new (mode : ProductModes) (lhs rhs : Operand Scalar Packet) :
    Exec (Product Scalar Packet) :=
  ei_assert (cols_of lhs =? rows_of rhs)
    (Ok {| m_lhs := lhs; m_rhs := rhs; ProductMode := mode |}).

Definition rows (p : Product Scalar Packet) : Z := rows_of (m_lhs p).
Definition cols (p : Product Scalar Packet) : Z := cols_of (m_rhs p).

Definition _useCacheFriendlyProduct (p : Product Scalar Packet) : bool :=
  (cols_of (m_lhs p) >=? EIGEN_CACHEFRIENDLY_PRODUCT_THRESHOLD)
  && ((rows p >=? EIGEN_CACHEFRIENDLY_PRODUCT_THRESHOLD)
      || (cols p >=? EIGEN_CACHEFRIENDLY_PRODUCT_THRESHOLD)).

(** [Product::coeff(int row, int col)]. The local [res] is declared without
    an initializer; [uninit] is whatever it holds when [run] is entered. *)
Definition coeff (p : Product Scalar Packet) (row col : Z) (uninit : Scalar) : Exec Scalar :=
  ScalarCoeffImpl p row col (m_lhs p) (m_rhs p) uninit.

(** [Product::coeff(int index)] *)
Definition coeff_index (p : Product Scalar Packet) (index : Z) (uninit : Scalar) : Exec Scalar :=
  let row := if Product_RowsAtCompileTime p =? 1 then 0 else index in
  let col := if Product_RowsAtCompileTime p =? 1 then index else 0 in
  ScalarCoeffImpl p row col (m_lhs p) (m_rhs p) uninit.


(** *** The product-mode classifier *)

(** Modelled from the spec: [MatrixBase::IsVectorAtCompileTime] is declared
    outside [Product.h]; an operand is a vector when one of its compile-time
    dimensions equals 1. *)
Definition IsVectorAtCompileTime (t : Traits) : bool :=
  (RowsAtCompileTime t =? 1) || (ColsAtCompileTime t =? 1).

(** The enumerator [LhsIsVectorAtCompileTime] of [ei_product_mode]. *)
Definition LhsIsVectorAtCompileTime (Lhs Rhs : Traits) : bool :=
  (ColsAtCompileTime Lhs =? 1) || (ColsAtCompileTime Rhs =? 1).

(** [ei_product_mode<Lhs, Rhs>::value] *)
Definition ei_product_mode (Lhs Rhs : Traits) : ProductModes :=
  if (MaxColsAtCompileTime Lhs =? Dynamic)
     && ((MaxRowsAtCompileTime Lhs =? Dynamic) || (MaxColsAtCompileTime Rhs =? Dynamic))
     && negb (IsVectorAtCompileTime Rhs
              && has_bit (Flags Lhs) RowMajorBit
              && negb (has_bit (Flags Lhs) DirectAccessBit))
     && negb (LhsIsVectorAtCompileTime Lhs Rhs
              && negb (has_bit (Flags Rhs) RowMajorBit)
              && negb (has_bit (Flags Rhs) DirectAccessBit))
     && String.eqb (ScalarName Lhs) (ScalarName Rhs)
  then CacheFriendlyProduct
  else NormalProduct.

(** The classifier as the specification words it, to compare with
    [ei_product_mode]. *)
Definition spec_is_vector (t : Traits) : bool := IsVectorAtCompileTime t.
Definition spec_is_row_major (t : Traits) : bool := has_bit (Flags t) RowMajorBit.
Definition spec_has_direct_access (t : Traits) : bool := has_bit (Flags t) DirectAccessBit.

Definition spec_product_mode (A B : Traits) : ProductModes :=
  if (MaxColsAtCompileTime A =? Dynamic)
     && ((MaxRowsAtCompileTime A =? Dynamic) || (MaxColsAtCompileTime B =? Dynamic))
     && negb (spec_is_vector B && spec_is_row_major A && negb (spec_has_direct_access A))
     && negb (spec_is_vector A && negb (spec_is_row_major B) && negb (spec_has_direct_access B))
     && String.eqb (ScalarName A) (ScalarName B)
  then CacheFriendlyProduct
  else NormalProduct.

End ProductDefinitions.

(** *** The cache-friendly kernel selector: which specialization is chosen *)

(** The six integer template arguments after [ProductType]. *)
Record SelectorTags : Type := {
  LhsRows : Z;
  LhsOrder : StorageOrder;
  LhsHasDirectAccess : Access;
  RhsCols : Z;
  RhsOrder : StorageOrder;
  RhsHasDirectAccess : Access
}.

(** The argument list of a partial specialization: [None] is a template
    parameter of the specialization, [Some v] a fixed value. *)
Record SelectorPattern : Type := {
  pLhsRows : option Z;
  pLhsOrder : option StorageOrder;
  pLhsAccess : option Access;
  pRhsCols : option Z;
  pRhsOrder : option StorageOrder;
  pRhsAccess : option Access
}.

(** The partial specializations of [ei_cache_friendly_product_selector], in
    the order of the file. The last two have an empty body. *)
Inductive Specialization : Type :=
| colmajor_nodirect_times_vector
| colmajor_direct_times_vector
| vector_times_rowmajor_nodirect
| vector_times_rowmajor_direct
| rowmajor_direct_times_vector
| vector_times_colmajor_direct
| discarded_rowmajor_nodirect_times_vector
| discarded_vector_times_colmajor_nodirect.

Definition mat_times_vector (o : StorageOrder) (a : Access) : SelectorPattern :=
  {| pLhsRows := None; pLhsOrder := Some o; pLhsAccess := Some a;
     pRhsCols := Some 1; pRhsOrder := None; pRhsAccess := None |}.

Definition vector_times_mat (o : StorageOrder) (a : Access) : SelectorPattern :=
  {| pLhsRows := Some 1; pLhsOrder := None; pLhsAccess := None;
     pRhsCols := None; pRhsOrder := Some o; pRhsAccess := Some a |}.

Definition pattern_of (s : Specialization) : SelectorPattern :=
  match s with
  | colmajor_nodirect_times_vector => mat_times_vector ColMajor NoDirectAccess
  | colmajor_direct_times_vector => mat_times_vector ColMajor HasDirectAccess
  | vector_times_rowmajor_nodirect => vector_times_mat RowMajor NoDirectAccess
  | vector_times_rowmajor_direct => vector_times_mat RowMajor HasDirectAccess
  | rowmajor_direct_times_vector => mat_times_vector RowMajor HasDirectAccess
  | vector_times_colmajor_direct => vector_times_mat ColMajor HasDirectAccess
  | discarded_rowmajor_nodirect_times_vector => mat_times_vector RowMajor NoDirectAccess
  | discarded_vector_times_colmajor_nodirect => vector_times_mat ColMajor NoDirectAccess
  end.

Definition all_specializations : list Specialization :=
  [ colmajor_nodirect_times_vector; colmajor_direct_times_vector;
    vector_times_rowmajor_nodirect; vector_times_rowmajor_direct;
    rowmajor_direct_times_vector; vector_times_colmajor_direct;
    discarded_rowmajor_nodirect_times_vector; discarded_vector_times_colmajor_nodirect ].

Definition StorageOrder_eqb (a b : StorageOrder) : bool :=
  match a, b with
  | ColMajor, ColMajor | RowMajor, RowMajor => true
  | _, _ => false
  end.

Definition Access_eqb (a b : Access) : bool :=
  match a, b with
  | NoDirectAccess, NoDirectAccess | HasDirectAccess, HasDirectAccess => true
  | _, _ => false
  end.

(** An argument is accepted by a pattern position. *)
Definition accepts {A : Type} (eq : A -> A -> bool) (pat : option A) (v : A) : bool :=
  match pat with
  | None => true
  | Some w => eq w v
  end.

Definition matches (pat : SelectorPattern) (t : SelectorTags) : bool :=
  accepts Z.eqb (pLhsRows pat) (LhsRows t)
  && accepts StorageOrder_eqb (pLhsOrder pat) (LhsOrder t)
  && accepts Access_eqb (pLhsAccess pat) (LhsHasDirectAccess t)
  && accepts Z.eqb (pRhsCols pat) (RhsCols t)
  && accepts StorageOrder_eqb (pRhsOrder pat) (RhsOrder t)
  && accepts Access_eqb (pRhsAccess pat) (RhsHasDirectAccess t).

(** [covers eq p q]: whatever position [p] accepts, position [q] accepts. *)
Definition covers {A : Type} (eq : A -> A -> bool) (p q : option A) : bool :=
  match q, p with
  | None, _ => true
  | Some w, Some v => eq w v
  | Some _, None => false
  end.

(** [p] is at least as specialized as [q]: every argument list that [p]
    accepts is accepted by [q]. *)
Definition at_least_as_specialized (p q : SelectorPattern) : bool :=
  covers Z.eqb (pLhsRows p) (pLhsRows q)
  && covers StorageOrder_eqb (pLhsOrder p) (pLhsOrder q)
  && covers Access_eqb (pLhsAccess p) (pLhsAccess q)
  && covers Z.eqb (pRhsCols p) (pRhsCols q)
  && covers StorageOrder_eqb (pRhsOrder p) (pRhsOrder q)
  && covers Access_eqb (pRhsAccess p) (pRhsAccess q).

Inductive Selected : Type :=
| Primary
| Specialized (s : Specialization)
| Ambiguous.

(** The choice the compiler makes for an argument list: the primary template
    when no specialization matches, the matching specialization that is at
    least as specialized as every other matching one when there is exactly
    one such, an ambiguity otherwise. *)
Definition select (t : SelectorTags) : Selected :=
  match filter (fun s => matches (pattern_of s) t) all_specializations with
  | [] => Primary
  | candidates =>
      match filter (fun s => forallb (fun s' =>
                       at_least_as_specialized (pattern_of s) (pattern_of s')) candidates)
                   candidates with
      | [s] => Specialized s
      | _ => Ambiguous
      end
  end.

(** A specialization whose body declares [run]. *)
Definition declares_run (s : Specialization) : bool :=
  match s with
  | discarded_rowmajor_nodirect_times_vector
  | discarded_vector_times_colmajor_nodirect => false
  | _ => true
  end.

(** The selector has a [run] for an argument list. *)
Definition selector_defined (t : SelectorTags) : bool :=
  match select t with
  | Primary => true
  | Specialized s => declares_run s
  | Ambiguous => false
  end.

(** The choice written out by cases on the two shapes. *)
Definition mat_times_vector_case (o : StorageOrder) (a : Access) : Specialization :=
  match o, a with
  | ColMajor, NoDirectAccess => colmajor_nodirect_times_vector
  | ColMajor, HasDirectAccess => colmajor_direct_times_vector
  | RowMajor, HasDirectAccess => rowmajor_direct_times_vector
  | RowMajor, NoDirectAccess => discarded_rowmajor_nodirect_times_vector
  end.

Definition vector_times_mat_case (o : StorageOrder) (a : Access) : Specialization :=
  match o, a with
  | RowMajor, NoDirectAccess => vector_times_rowmajor_nodirect
  | RowMajor, HasDirectAccess => vector_times_rowmajor_direct
  | ColMajor, HasDirectAccess => vector_times_colmajor_direct
  | ColMajor, NoDirectAccess => discarded_vector_times_colmajor_nodirect
  end.

Definition select_by_cases (t : SelectorTags) : Selected :=
  match LhsRows t =? 1, RhsCols t =? 1 with
  | false, false => Primary
  | false, true => Specialized (mat_times_vector_case (LhsOrder t) (LhsHasDirectAccess t))
  | true, false => Specialized (vector_times_mat_case (RhsOrder t) (RhsHasDirectAccess t))
  | true, true => Ambiguous
  end.

Section CacheFriendlyDefinitions.

Context {K : Constants}.
Context {Scalar Packet : Type}.
Context {SO : ScalarOps Scalar}.
Context {PO : PacketOps Scalar Packet}.

Local Notation "x [+] y" := (add x y) (at level 50, left associativity).
Local Notation "x [*] y" := (mul x y) (at level 40, left associativity).

(** The default template arguments of [ei_cache_friendly_product_selector]. *)
Definition selector_tags (p : Product Scalar Packet) : SelectorTags :=
  {| LhsRows := Product_RowsAtCompileTime p;
     LhsOrder := if has_bit (LhsFlags p) RowMajorBit then RowMajor else ColMajor;
     LhsHasDirectAccess := ActualAccess (traits (m_lhs p));
     RhsCols := Product_ColsAtCompileTime p;
     RhsOrder := if has_bit (RhsFlags p) RowMajorBit then RowMajor else ColMajor;
     RhsHasDirectAccess := ActualAccess (traits (m_rhs p)) |}.

(** *** Kernels and expression operators defined outside [Product.h] *)

Definition cj (conjugate : bool) (x : Scalar) : Scalar :=
  if conjugate then ei_conj x else x.

(** Modelled from the spec: [ei_general_matrix_matrix_product::run] is
    defined outside [Product.h]; it computes C += alpha * op(A) * op(B),
    where op conjugates the operand whose conjugation bit is set. *)
Definition ei_general_matrix_matrix_product (ConjLhs ConjRhs : bool)
    (rows cols depth : Z) (lhs rhs : Z -> Z -> Scalar)
    (res : Z -> Z -> Scalar) (alpha : Scalar) : Z -> Z -> Scalar :=
  fun i j =>
    res i j [+] alpha [*] for_loop 0 depth
                            (fun k acc => acc [+] cj ConjLhs (lhs i k) [*] cj ConjRhs (rhs k j))
                            (of_int 0).

(** Modelled from the spec: [ei_cache_friendly_product_colmajor_times_vector]
    is defined outside [Product.h]; for each column k of A it computes
    y += (alpha * rhs(k)) * A.col(k). [lhs i k] is the entry i of column k. *)
Definition ei_cache_friendly_product_colmajor_times_vector (ConjLhs ConjRhs : bool)
    (size : Z) (lhs : Z -> Z -> Scalar) (rhs : LinearView Scalar)
    (res : Z -> Scalar) (alpha : Scalar) : Z -> Scalar :=
  for_loop 0 (lv_size rhs)
    (fun k res i => res i [+] (alpha [*] cj ConjRhs (lv_coeff rhs k)) [*] cj ConjLhs (lhs i k))
    res.

(** Modelled from the spec: [ei_cache_friendly_product_rowmajor_times_vector]
    is defined outside [Product.h]; for each row r of A it computes
    y(r) += alpha * (A.row(r) . x). [lhs r k] is the entry k of row r. *)
Definition ei_cache_friendly_product_rowmajor_times_vector (ConjLhs ConjRhs : bool)
    (lhs : Z -> Z -> Scalar) (rhs : Z -> Scalar) (rhsSize : Z)
    (res : Z -> Scalar) (alpha : Scalar) : Z -> Scalar :=
  fun r =>
    res r [+] alpha [*] for_loop 0 rhsSize
                          (fun k acc => acc [+] cj ConjLhs (lhs r k) [*] cj ConjRhs (rhs k))
                          (of_int 0).

(** Modelled from the spec: [MatrixBase::operator+=] with a coefficient-wise
    expression on the right is defined outside [Product.h]; every coefficient
    of the destination receives its sum with the coefficient of the
    expression. *)
Definition add_assign (res : Matrix Scalar) (e : Z -> Z -> Scalar) : Matrix Scalar :=
  {| m_rows := m_rows res; m_cols := m_cols res;
     m_coeff := fun i j => m_coeff res i j [+] e i j |}.

(** Modelled from the spec: [setZero] is defined outside [Product.h]. *)
Definition setZero (res : Matrix Scalar) : Matrix Scalar :=
  {| m_rows := m_rows res; m_cols := m_cols res; m_coeff := fun _ _ => of_int 0 |}.

(** A column vector and a row vector destination read and written through
    the pointer to their first coefficient. *)
Definition column_of (res : Matrix Scalar) : Z -> Scalar := fun i => m_coeff res i 0.
Definition row_of (res : Matrix Scalar) : Z -> Scalar := fun j => m_coeff res 0 j.

Definition with_column (res : Matrix Scalar) (v : Z -> Scalar) : Matrix Scalar :=
  {| m_rows := m_rows res; m_cols := m_cols res; m_coeff := fun i _ => v i |}.

Definition with_row (res : Matrix Scalar) (v : Z -> Scalar) : Matrix Scalar :=
  {| m_rows := m_rows res; m_cols := m_cols res; m_coeff := fun _ j => v j |}.

Definition size_of (res : Matrix Scalar) : Z := m_rows res * m_cols res.

Definition transposed (f : Z -> Z -> Scalar) : Z -> Z -> Scalar := fun i j => f j i.

(** *** The bodies of [ei_cache_friendly_product_selector<...>::run] *)

(** [actualAlpha = alpha * extractScalarFactor(lhs) * extractScalarFactor(rhs)] *)
Definition actualAlpha (product : Product Scalar Packet) (alpha : Scalar) : Scalar :=
  alpha [*] extractScalarFactor (m_lhs product) [*] extractScalarFactor (m_rhs product).

Definition ConjLhs (product : Product Scalar Packet) : bool := NeedToConjugate (traits (m_lhs product)).
Definition ConjRhs (product : Product Scalar Packet) : bool := NeedToConjugate (traits (m_rhs product)).

(** [Product::_cacheFriendlyEvalAndAdd] *)
Definition _cacheFriendlyEvalAndAdd (product : Product Scalar Packet)
    (res : Matrix Scalar) (alpha : Scalar) : Exec (Matrix Scalar) :=
  let lhs := extract (m_lhs product) in
  let rhs := extract (m_rhs product) in
  Ok {| m_rows := m_rows res; m_cols := m_cols res;
        m_coeff := ei_general_matrix_matrix_product (ConjLhs product) (ConjRhs product)
                     (rows product) (cols product) (m_cols lhs)
                     (m_coeff lhs) (m_coeff rhs) (m_coeff res) (actualAlpha product alpha) |}.

(** The primary template. *)
Definition run_default (res : Matrix Scalar) (product : Product Scalar Packet)
    (alpha : Scalar) : Exec (Matrix Scalar) :=
  _cacheFriendlyEvalAndAdd product res alpha.

(** [<ProductType, LhsRows, ColMajor, NoDirectAccess, 1, RhsOrder, RhsAccess>].
    The right operand has one column: [rhs.coeff(k)] is its entry [(k,0)],
    and [lhs.col(k)] has the entry [(i,k)] of the left operand in row [i].
    The product of a scalar and an expression, whose operator is defined
    outside [Product.h], has the factors in the order in which they are
    written. *)
Definition run_colmajor_nodirect_times_vector (res : Matrix Scalar)
    (product : Product Scalar Packet) (alpha : Scalar) : Exec (Matrix Scalar) :=
  ei_assert (eqb alpha (of_int 1))
    (let size := rows_of (m_rhs product) in
     Ok (for_loop 0 size
           (fun k res =>
              add_assign res (fun i _ =>
                coeff_of (m_rhs product) k 0 [*] coeff_of (m_lhs product) i k))
           res)).

(** [<ProductType, LhsRows, ColMajor, HasDirectAccess, 1, RhsOrder, RhsAccess>] *)
Definition run_colmajor_direct_times_vector (res : Matrix Scalar)
    (product : Product Scalar Packet) (alpha : Scalar) : Exec (Matrix Scalar) :=
  let actualLhs := extract (m_lhs product) in
  let actualRhs := extract (m_rhs product) in
  Ok (with_column res
        (ei_cache_friendly_product_colmajor_times_vector (ConjLhs product) (ConjRhs product)
           (size_of res) (m_coeff actualLhs)
           {| lv_size := size_of actualRhs; lv_coeff := fun k => m_coeff actualRhs k 0 |}
           (column_of res) (actualAlpha product alpha))).

(** [<ProductType, 1, LhsOrder, LhsAccess, RhsCols, RowMajor, NoDirectAccess>].
    The left operand has one row: [lhs.coeff(j)] is its entry [(0,j)], and
    [rhs.row(j)] has the entry [(j,c)] of the right operand in column [c]. *)
Definition run_vector_times_rowmajor_nodirect (res : Matrix Scalar)
    (product : Product Scalar Packet) (alpha : Scalar) : Exec (Matrix Scalar) :=
  ei_assert (eqb alpha (of_int 1))
    (let cols := cols_of (m_lhs product) in
     Ok (for_loop 0 cols
           (fun j res =>
              add_assign res (fun _ c =>
                coeff_of (m_lhs product) 0 j [*] coeff_of (m_rhs product) j c))
           res)).

(** [<ProductType, 1, LhsOrder, LhsAccess, RhsCols, RowMajor, HasDirectAccess>]:
    the column-major kernel on the storage of the right operand, whose
    columns are the rows of the right operand. *)
Definition run_vector_times_rowmajor_direct (res : Matrix Scalar)
    (product : Product Scalar Packet) (alpha : Scalar) : Exec (Matrix Scalar) :=
  let actualLhs := extract (m_lhs product) in
  let actualRhs := extract (m_rhs product) in
  Ok (with_row res
        (ei_cache_friendly_product_colmajor_times_vector (ConjRhs product) (ConjLhs product)
           (size_of res) (transposed (m_coeff actualRhs))
           {| lv_size := size_of actualLhs; lv_coeff := fun k => m_coeff actualLhs 0 k |}
           (row_of res) (actualAlpha product alpha))).

(** [<ProductType, LhsRows, RowMajor, HasDirectAccess, 1, RhsOrder, RhsAccess>] *)
Definition run_rowmajor_direct_times_vector (res : Matrix Scalar)
    (product : Product Scalar Packet) (alpha : Scalar) : Exec (Matrix Scalar) :=
  let actualLhs := extract (m_lhs product) in
  let actualRhs := extract (m_rhs product) in
  Ok (with_column res
        (ei_cache_friendly_product_rowmajor_times_vector (ConjLhs product) (ConjRhs product)
           (m_coeff actualLhs) (fun k => m_coeff actualRhs k 0)
           (size_of (view (m_rhs product)))
           (column_of res) (actualAlpha product alpha))).

(** [<ProductType, 1, LhsOrder, LhsAccess, RhsCols, ColMajor, HasDirectAccess>]:
    the row-major kernel on the storage of the right operand, whose rows
    are the columns of the right operand. *)
Definition run_vector_times_colmajor_direct (res : Matrix Scalar)
    (product : Product Scalar Packet) (alpha : Scalar) : Exec (Matrix Scalar) :=
  let actualLhs := extract (m_lhs product) in
  let actualRhs := extract (m_rhs product) in
  Ok (with_row res
        (ei_cache_friendly_product_rowmajor_times_vector (ConjRhs product) (ConjLhs product)
           (transposed (m_coeff actualRhs)) (fun k => m_coeff actualLhs 0 k)
           (size_of (view (m_lhs product)))
           (row_of res) (actualAlpha product alpha))).

(** [ei_cache_friendly_product_selector<ProductType>::run(res, product, alpha)].
    The two discarded specializations declare no [run]. *)
Definition selector_run (res : Matrix Scalar) (product : Product Scalar Packet)
    (alpha : Scalar) : Exec (Matrix Scalar) :=
  match select (selector_tags product) with
  | Primary => run_default res product alpha
  | Specialized colmajor_nodirect_times_vector =>
      run_colmajor_nodirect_times_vector res product alpha
  | Specialized colmajor_direct_times_vector =>
      run_colmajor_direct_times_vector res product alpha
  | Specialized vector_times_rowmajor_nodirect =>
      run_vector_times_rowmajor_nodirect res product alpha
  | Specialized vector_times_rowmajor_direct =>
      run_vector_times_rowmajor_direct res product alpha
  | Specialized rowmajor_direct_times_vector =>
      run_rowmajor_direct_times_vector res product alpha
  | Specialized vector_times_colmajor_direct =>
      run_vector_times_colmajor_direct res product alpha
  | Specialized discarded_rowmajor_nodirect_times_vector => CompileError
  | Specialized discarded_vector_times_colmajor_nodirect => CompileError
  | Ambiguous => CompileError
  end.

(** *** Assignment of a product *)

(** The index pairs of a [rows] by [cols] matrix. *)
Definition index_pairs (rows cols : Z) : list (Z * Z) :=
  list_prod (Zrange 0 (Z.to_nat rows)) (Zrange 0 (Z.to_nat cols)).

Definition set_coeff (m : Matrix Scalar) (i j : Z) (v : Scalar) : Matrix Scalar :=
  {| m_rows := m_rows m; m_cols := m_cols m;
     m_coeff := fun i' j' => if (i' =? i) && (j' =? j) then v else m_coeff m i' j' |}.

(** Modelled from the spec: the coefficient-wise [lazyAssign] is defined
    outside [Product.h]; every coefficient of the destination is computed by
    one call of [coeff(i,j)] of the expression and stored. *)
Definition assign_coeffs (dst : Matrix Scalar) (e : Z -> Z -> Exec Scalar) : Exec (Matrix Scalar) :=
  fold_left
    (fun acc ij => m <- acc ;; v <- e (fst ij) (snd ij) ;; Ok (set_coeff m (fst ij) (snd ij) v))
    (index_pairs (m_rows dst) (m_cols dst))
    (Ok dst).

(** [lazyAssign] of a [NormalProduct]. [junk i j] is what the local [res] of
    the call [coeff(i,j)] holds before it is written. *)
Definition lazyAssign_NormalProduct (dst : Matrix Scalar) (product : Product Scalar Packet)
    (junk : Z -> Z -> Scalar) : Exec (Matrix Scalar) :=
  assign_coeffs dst (fun i j => coeff product i j (junk i j)).

(** The call [ei_cache_friendly_product_selector<...>::run(...)] is compiled
    where it is written, whichever branch of the [if] around it is executed:
    a function whose body names it does not compile when the selector has
    no [run] for the product. *)
Definition with_selector_run {A : Type} (product : Product Scalar Packet)
    (body : Exec A) : Exec A :=
  if selector_defined (selector_tags product) then body else CompileError.

(** [MatrixBase::lazyAssign(const Product<Lhs,Rhs,CacheFriendlyProduct>&)] *)
Definition lazyAssign (dst : Matrix Scalar) (product : Product Scalar Packet)
    (junk : Z -> Z -> Scalar) : Exec (Matrix Scalar) :=
  with_selector_run product
    (if _useCacheFriendlyProduct product then
       selector_run (setZero dst) product (of_int 1)
     else
       normal <- Product_new NormalProduct (m_lhs product) (m_rhs product) ;;
       lazyAssign_NormalProduct dst normal junk).

(** Modelled from the spec: a product that is an operand of another
    expression is materialized into a temporary of its shape
    (EvalBeforeNesting), by the assignment above. The storage of the
    temporary starts with indeterminate content. *)
Definition nested_product (product : Product Scalar Packet)
    (junk : Z -> Z -> Scalar) : Exec (Matrix Scalar) :=
  lazyAssign {| m_rows := rows product; m_cols := cols product; m_coeff := junk |} product junk.

(** Modelled from the spec: the expressions [C + A*B] and [C - A*B], whose
    operators are defined outside [Product.h], and their coefficient-wise
    assignment to a destination. *)
Definition sum_with_product (C : Matrix Scalar) (product : Product Scalar Packet)
    (junk : Z -> Z -> Scalar) : Exec (Z -> Z -> Scalar) :=
  tmp <- nested_product product junk ;;
  Ok (fun i j => m_coeff C i j [+] m_coeff tmp i j).

Definition difference_with_product (C : Matrix Scalar) (product : Product Scalar Packet)
    (junk : Z -> Z -> Scalar) : Exec (Z -> Z -> Scalar) :=
  tmp <- nested_product product junk ;;
  Ok (fun i j => sub (m_coeff C i j) (m_coeff tmp i j)).

Definition lazyAssign_expression (dst : Matrix Scalar) (e : Z -> Z -> Scalar) : Matrix Scalar :=
  {| m_rows := m_rows dst; m_cols := m_cols dst; m_coeff := e |}.

(** [MatrixBase::operator+=] for a cache-friendly product *)
Definition operator_plus_eq (C : Matrix Scalar) (other : Product Scalar Packet)
    (junk : Z -> Z -> Scalar) : Exec (Matrix Scalar) :=
  with_selector_run other
    (if _useCacheFriendlyProduct other then
       selector_run C other (of_int 1)
     else
       e <- sum_with_product C other junk ;;
       Ok (lazyAssign_expression C e)).

(** [MatrixBase::operator-=] for a cache-friendly product *)
Definition operator_minus_eq (C : Matrix Scalar) (other : Product Scalar Packet)
    (junk : Z -> Z -> Scalar) : Exec (Matrix Scalar) :=
  with_selector_run other
    (if _useCacheFriendlyProduct other then
       selector_run C other (of_int (-1))
     else
       e <- difference_with_product C other junk ;;
       Ok (lazyAssign_expression C e)).

(** The statement [C2 = C + A*B] for a fresh matrix [C2] of the shape of
    [C]. *)
Definition fresh_sum (C : Matrix Scalar) (product : Product Scalar Packet)
    (junk : Z -> Z -> Scalar) : Exec (Matrix Scalar) :=
  e <- sum_with_product C product junk ;;
  Ok (lazyAssign_expression
        {| m_rows := m_rows C; m_cols := m_cols C; m_coeff := junk |} e).

(** *** What the properties are stated with *)

(** The dot product of row [r] of [A] and column [c] of [B] over [k]
    terms, accumulated from the left: the first term is [A(r,0)*B(0,c)],
    then [A(r,i)*B(i,c)] is added for [i = 1 .. k-1]. *)
Definition dot_left_to_right (A B : Matrix Scalar) (r c k : Z) : Scalar :=
  fold_left (fun acc i => acc [+] m_coeff A r i [*] m_coeff B i c)
    (Zrange 1 (Z.to_nat (k - 1)))
    (m_coeff A r 0 [*] m_coeff B 0 c).

(** Two matrices of one shape with the same coefficients. *)
Definition same_contents (X Y : Matrix Scalar) : Prop :=
  m_rows X = m_rows Y /\ m_cols X = m_cols Y /\
  forall i j, 0 <= i < m_rows X -> 0 <= j < m_cols X -> m_coeff X i j = m_coeff Y i j.

(** Two outcomes of the same kind, with the same contents when they are
    matrices. *)
Definition same_outcome (x y : Exec (Matrix Scalar)) : Prop :=
  match x, y with
  | Ok X, Ok Y => same_contents X Y
  | AssertFail, AssertFail => True
  | CompileError, CompileError => True
  | _, _ => False
  end.

(** The accumulation [res += Sum_k rhs(k) * A.col(k)] in the coefficient
    [(i,j)] of the destination. *)
Definition accumulated_columns (p : Product Scalar Packet) (res : Matrix Scalar) (i j : Z) : Scalar :=
  fold_left (fun acc k => acc [+] coeff_of (m_rhs p) k 0 [*] coeff_of (m_lhs p) i k)
    (Zrange 0 (Z.to_nat (rows_of (m_rhs p)))) (m_coeff res i j).

(** The accumulation [res += Sum_j lhs(j) * B.row(j)] in the coefficient
    [(i,c)] of the destination. *)
Definition accumulated_rows (p : Product Scalar Packet) (res : Matrix Scalar) (i c : Z) : Scalar :=
  fold_left (fun acc j => acc [+] coeff_of (m_lhs p) 0 j [*] coeff_of (m_rhs p) j c)
    (Zrange 0 (Z.to_nat (cols_of (m_lhs p)))) (m_coeff res i c).

(** Two outcomes of the same kind whose matrices, when there are any, have
    one shape and the same coefficients at the indices in [P]. *)
Definition agree_on (P : Z -> Z -> Prop) (x y : Exec (Matrix Scalar)) : Prop :=
  match x, y with
  | Ok X, Ok Y =>
      m_rows X = m_rows Y /\ m_cols X = m_cols Y /\
      forall i j, P i j -> m_coeff X i j = m_coeff Y i j
  | AssertFail, AssertFail => True
  | CompileError, CompileError => True
  | _, _ => False
  end.

(** A compile-time size is either [Dynamic] or the run-time size, which
    lies below [Dynamic]. *)
Definition static_size_ok (static runtime : Z) : Prop :=
  static = Dynamic \/ (static = runtime /\ 0 <= runtime < Dynamic).

(** The traits of an operand are consistent: a fixed size 1 is its own
    maximum, and [ActualAccess] is the direct access flag. *)
Definition consistent_traits (t : Traits) : Prop :=
  (RowsAtCompileTime t = 1 -> MaxRowsAtCompileTime t = 1) /\
  (ColsAtCompileTime t = 1 -> MaxColsAtCompileTime t = 1) /\
  ActualAccess t = if has_bit (Flags t) DirectAccessBit then HasDirectAccess else NoDirectAccess.

Definition well_formed (x : Operand Scalar Packet) : Prop :=
  static_size_ok (RowsAtCompileTime (traits x)) (rows_of x) /\
  static_size_ok (ColsAtCompileTime (traits x)) (cols_of x).

End CacheFriendlyDefinitions.

(** ** The packet evaluator, [Product::packet] and [operator*] *)

(** The rest of the packet layer: the broadcast [ei_pset1], the
    multiply-add [ei_pmadd(a,b,c)], and the packet access
    [x.template packet<LoadMode>(row, col)] of an operand. *)
Class PacketLoadOps (Scalar Packet : Type) : Type := {
  ei_pset1 : Scalar -> Packet;
  ei_pmadd : Packet -> Packet -> Packet -> Packet;
  packet_load : Z -> Operand Scalar Packet -> Z -> Z -> Packet
}.

Section PacketDefinitions.

Context {K : Constants}.
Context {Scalar Packet : Type}.
Context {SO : ScalarOps Scalar}.
Context {PO : PacketOps Scalar Packet}.
Context {PL : PacketLoadOps Scalar Packet}.

(** [ei_product_packet_impl<RowMajor, 0, ...>::run] *)
Definition packet_impl_RowMajor_0 (LoadMode row col : Z)
    (lhs rhs : Operand Scalar Packet) (res : Packet) : Exec Packet :=
  Ok (ei_pmul (ei_pset1 (coeff_of lhs row 0)) (packet_load LoadMode rhs 0 col)).

(** [ei_product_packet_impl<ColMajor, 0, ...>::run] *)
Definition packet_impl_ColMajor_0 (LoadMode row col : Z)
    (lhs rhs : Operand Scalar Packet) (res : Packet) : Exec Packet :=
  Ok (ei_pmul (packet_load LoadMode lhs row 0) (ei_pset1 (coeff_of rhs 0 col))).

(** The statement that the primary templates and the loops execute for the
    inner index [i]:
    [res = ei_pmadd(ei_pset1(lhs.coeff(row, i)), rhs.packet(i, col), res)]
    for a row-major result,
    [res = ei_pmadd(lhs.packet(row, i), ei_pset1(rhs.coeff(i, col)), res)]
    for a column-major one. *)
Definition packet_step (order : StorageOrder) (LoadMode row col : Z)
    (lhs rhs : Operand Scalar Packet) (i : Z) (res : Packet) : Packet :=
  match order with
  | RowMajor => ei_pmadd (ei_pset1 (coeff_of lhs row i)) (packet_load LoadMode rhs i col) res
  | ColMajor => ei_pmadd (packet_load LoadMode lhs row i) (ei_pset1 (coeff_of rhs i col)) res
  end.

Definition packet_impl_0 (order : StorageOrder) (LoadMode row col : Z)
    (lhs rhs : Operand Scalar Packet) (res : Packet) : Exec Packet :=
  match order with
  | RowMajor => packet_impl_RowMajor_0 LoadMode row col lhs rhs res
  | ColMajor => packet_impl_ColMajor_0 LoadMode row col lhs rhs res
  end.

(** [ei_product_packet_impl<RowMajor, Dynamic, ...>::run] and
    [ei_product_packet_impl<ColMajor, Dynamic, ...>::run] *)
Definition packet_impl_Dynamic (order : StorageOrder) (LoadMode row col : Z)
    (lhs rhs : Operand Scalar Packet) (res : Packet) : Exec Packet :=
  ei_assert (cols_of lhs >? 0)
    (res0 <- packet_impl_0 order LoadMode row col lhs rhs res ;;
     Ok (for_loop 1 (cols_of lhs) (packet_step order LoadMode row col lhs rhs) res0)).

(** [ei_product_packet_impl<StorageOrder, Index, ...>::run]: the
    specializations for [Dynamic] and [0], and the primary templates, which
    instantiate [Index-1] first. There is no specialization for [-1]. *)
Fixpoint packet_impl_rec (depth : nat) (order : StorageOrder) (Index LoadMode row col : Z)
    (lhs rhs : Operand Scalar Packet) (res : Packet) : Exec Packet :=
  if Index =? Dynamic then packet_impl_Dynamic order LoadMode row col lhs rhs res
  else if Index =? 0 then packet_impl_0 order LoadMode row col lhs rhs res
  else
    match depth with
    | O => CompileError
    | S depth' =>
        res' <- packet_impl_rec depth' order (Index - 1) LoadMode row col lhs rhs res ;;
        Ok (packet_step order LoadMode row col lhs rhs Index res')
    end.

Definition ei_product_packet_impl (order : StorageOrder) (Index LoadMode row col : Z)
    (lhs rhs : Operand Scalar Packet) (res : Packet) : Exec Packet :=
  packet_impl_rec (instantiation_depth Index) order Index LoadMode row col lhs rhs res.

(** [Product::packet<LoadMode>(int row, int col)]. The local [res] is
    declared without an initializer. *)
Definition Product_packet (LoadMode : Z) (p : Product Scalar Packet) (row col : Z)
    (uninit : Packet) : Exec Packet :=
  ei_product_packet_impl
    (if has_bit (Product_Flags p) RowMajorBit then RowMajor else ColMajor)
    (if Unroll p then InnerSize p - 1 else Dynamic)
    LoadMode row col (m_lhs p) (m_rhs p) uninit.

(** The storage order that [Product::packet] passes to the evaluator. *)
Definition packet_order (p : Product Scalar Packet) : StorageOrder :=
  if has_bit (Product_Flags p) RowMajorBit then RowMajor else ColMajor.

(** The coefficient ([row], [col]) seen from lane [l] of a packet of the
    result: the packet of a row-major result spans columns, the packet of a
    column-major result spans rows. *)
Definition lane_row (order : StorageOrder) (row l : Z) : Z :=
  match order with RowMajor => row | ColMajor => row + l end.

Definition lane_col (order : StorageOrder) (col l : Z) : Z :=
  match order with RowMajor => col + l | ColMajor => col end.

(** The packet that the evaluator loads at inner index [i]. *)
Definition loaded_packet (order : StorageOrder) (LoadMode row col : Z)
    (lhs rhs : Operand Scalar Packet) (i : Z) : Packet :=
  match order with
  | RowMajor => packet_load LoadMode rhs i col
  | ColMajor => packet_load LoadMode lhs row i
  end.

(** The coefficient that lane [l] of that packet has to hold. *)
Definition loaded_coeff (order : StorageOrder) (row col : Z)
    (lhs rhs : Operand Scalar Packet) (i l : Z) : Scalar :=
  match order with
  | RowMajor => coeff_of rhs i (col + l)
  | ColMajor => coeff_of lhs (row + l) i
  end.

(** The first packet and the packets added after it. *)
Definition first_packet (order : StorageOrder) (LoadMode row col : Z)
    (lhs rhs : Operand Scalar Packet) : Packet :=
  match order with
  | RowMajor => ei_pmul (ei_pset1 (coeff_of lhs row 0)) (packet_load LoadMode rhs 0 col)
  | ColMajor => ei_pmul (packet_load LoadMode lhs row 0) (ei_pset1 (coeff_of rhs 0 col))
  end.

Definition packet_sum (order : StorageOrder) (LoadMode row col : Z)
    (lhs rhs : Operand Scalar Packet) (k : Z) : Packet :=
  fold_left (fun res i => packet_step order LoadMode row col lhs rhs i res)
    (Zrange 1 (Z.to_nat (k - 1)))
    (first_packet order LoadMode row col lhs rhs).

(** *** [MatrixBase::operator*] *)

Section OperatorTimes.

(** [EIGEN_PREDICATE_SAME_MATRIX_SIZE], [ei_nested<T, n, PlainMatrixType>]
    and the real scalar type [T::RealScalar] of a scalar type are defined
    outside [Product.h]. [ei_nested x n column_major] is the operand that
    the product stores for [x]; [column_major] tells that the plain type of
    a temporary is the column-major one. [RealScalar s] is the name of the
    real scalar type of the scalar type named [s]. *)
Variable SameSizes : Traits -> Traits -> bool.
Variable ei_nested : Operand Scalar Packet -> Z -> bool -> Operand Scalar Packet.
Variable RealScalar : string -> string.

(** [ei_is_same_type<typename Lhs::RealScalar, typename Rhs::RealScalar>::ret] *)
Definition same_RealScalar (Lhs Rhs : Traits) : bool :=
  String.eqb (RealScalar (ScalarName Lhs)) (RealScalar (ScalarName Rhs)).

Definition ProductIsValid (Derived OtherDerived : Traits) : bool :=
  (ColsAtCompileTime Derived =? Dynamic)
  || (RowsAtCompileTime OtherDerived =? Dynamic)
  || (ColsAtCompileTime Derived =? RowsAtCompileTime OtherDerived).

Definition AreVectors (Derived OtherDerived : Traits) : bool :=
  IsVectorAtCompileTime Derived && IsVectorAtCompileTime OtherDerived.

(** The three [EIGEN_STATIC_ASSERT] of [operator*]. *)
Definition operator_times_static_asserts (Derived OtherDerived : Traits) : bool :=
  (ProductIsValid Derived OtherDerived
   || negb (AreVectors Derived OtherDerived && SameSizes Derived OtherDerived))
  && (ProductIsValid Derived OtherDerived
      || negb (SameSizes Derived OtherDerived && negb (AreVectors Derived OtherDerived)))
  && (ProductIsValid Derived OtherDerived || SameSizes Derived OtherDerived).

(** [ProductReturnType<Lhs, Rhs, ProductMode>::LhsNested] and [RhsNested],
    with the specialization for [CacheFriendlyProduct]. *)
Definition LhsNested (mode : ProductModes) (lhs rhs : Operand Scalar Packet) :
    Operand Scalar Packet :=
  match mode with
  | NormalProduct => ei_nested lhs (ColsAtCompileTime (traits rhs)) false
  | CacheFriendlyProduct => ei_nested lhs 1 false
  end.

Definition RhsNested (mode : ProductModes) (lhs rhs : Operand Scalar Packet) :
    Operand Scalar Packet :=
  match mode with
  | NormalProduct => ei_nested rhs (RowsAtCompileTime (traits lhs)) false
  | CacheFriendlyProduct => ei_nested rhs 1 true
  end.

(** The constructor of [Product] called with the operands of [operator*]:
    the static assertion reads the real scalar types of the argument types,
    the assertion reads the arguments, the members are the nested
    operands. *)
Definition Product_construct (mode : ProductModes) (lhs rhs : Operand Scalar Packet) :
    Exec (Product Scalar Packet) :=
  if same_RealScalar (traits lhs) (traits rhs) then
    ei_assert (cols_of lhs =? rows_of rhs)
      (Ok {| m_lhs := LhsNested mode lhs rhs;
             m_rhs := RhsNested mode lhs rhs;
             ProductMode := mode |})
  else CompileError.

(** [MatrixBase::operator*]. The product mode of the return type is the
    value of [ei_product_mode], as the documentation of [ProductReturnType]
    says. *)
Definition operator_times (lhs rhs : Operand Scalar Packet) : Exec (Product Scalar Packet) :=
  if operator_times_static_asserts (traits lhs) (traits rhs)
  then Product_construct (ei_product_mode (traits lhs) (traits rhs)) lhs rhs
  else CompileError.

End OperatorTimes.

End PacketDefinitions.

(** ** Concrete settings for the examples *)

(** The constants of a build with vectorization. *)
Definition sample_constants : Constants :=
  {| Dynamic := 10000;
     RowMajorBit := 1;
     DirectAccessBit := 32;
     PacketAccessBit := 8;
     ActualPacketAccessBit := 8;
     AlignedBit := 64;
     EvalBeforeNestingBit := 2;
     EvalBeforeAssigningBit := 4;
     HereditaryBits := 4103;
     EIGEN_UNROLLING_LIMIT := 100;
     EIGEN_CACHEFRIENDLY_PRODUCT_THRESHOLD := 8 |}.

(** Exact integer scalars. *)
Definition exact_scalars : ScalarOps Z :=
  {| add := Z.add; mul := Z.mul; sub := Z.sub;
     of_int := fun n => n; eqb := Z.eqb; ei_conj := fun x => x;
     MulCost := 1; AddCost := 1 |}.

(** A small floating point format on integer values: a significand of three
    bits, rounding toward zero. [round3 9 = 8], [round3 10 = 10]. *)
Definition round3 (x : Z) : Z :=
  let e := Z.log2 (Z.abs x) - 2 in
  if e <=? 0 then x else Z.sgn x * Z.shiftl (Z.shiftr (Z.abs x) e) e.

Definition rounded_scalars : ScalarOps Z :=
  {| add := fun x y => round3 (x + y);
     mul := fun x y => round3 (x * y);
     sub := fun x y => round3 (x - y);
     of_int := round3; eqb := Z.eqb; ei_conj := fun x => x;
     MulCost := 1; AddCost := 1 |}.

(** Packets of two lanes: lane-wise product and sum, and the reduction that
    adds the two lanes. *)
Definition two_lanes (SO : ScalarOps Z) : PacketOps Z (Z * Z) :=
  {| PacketSize := 2;
     ei_pmul := fun a b => (mul (fst a) (fst b), mul (snd a) (snd b));
     ei_padd := fun a b => (add (fst a) (fst b), add (snd a) (snd b));
     ei_predux := fun a => add (fst a) (snd a);
     uninit_packet := (0, 0);
     ei_dot_impl := fun u v =>
       for_loop 0 (lv_size u)
         (fun k acc => add acc (mul (lv_coeff u k) (lv_coeff v k))) (of_int 0) |}.

Definition exact_packets : PacketOps Z (Z * Z) := two_lanes exact_scalars.
Definition rounded_packets : PacketOps Z (Z * Z) := two_lanes rounded_scalars.

(** The coefficients of a matrix written row by row. *)
Definition of_rows (l : list (list Z)) : Z -> Z -> Z :=
  fun i j => nth (Z.to_nat j) (nth (Z.to_nat i) l []) 0.

(** An operand that is its own extraction, with a packet of two adjacent
    coefficients along its storage order. *)
Definition dense (name : string) (static_rows static_cols rows cols : Z)
    (flags : Z) (access : Access) (f : Z -> Z -> Z) : Operand Z (Z * Z) :=
  {| traits := {| ScalarName := name;
                  RowsAtCompileTime := static_rows; ColsAtCompileTime := static_cols;
                  MaxRowsAtCompileTime := static_rows; MaxColsAtCompileTime := static_cols;
                  Flags := flags; CoeffReadCost := 1;
                  ActualAccess := access; NeedToConjugate := false |};
     view := {| m_rows := rows; m_cols := cols; m_coeff := f |};
     packet := if Z.land flags 1 =? 0
               then fun i j => (f i j, f (i + 1) j)
               else fun i j => (f i j, f i (j + 1));
     extract := {| m_rows := rows; m_cols := cols; m_coeff := f |};
     extractScalarFactor := 1 |}.

(** [[1,2],[3,4]] times [[5,6],[7,8]], both of dynamic size, column-major
    with direct access. *)
Definition product_2x2 : Product Z (Z * Z) :=
  {| m_lhs := dense "int" 10000 10000 2 2 32 HasDirectAccess (of_rows [[1; 2]; [3; 4]]);
     m_rhs := dense "int" 10000 10000 2 2 32 HasDirectAccess (of_rows [[5; 6]; [7; 8]]);
     ProductMode := CacheFriendlyProduct |}.

(** A 2-by-0 operand times a 0-by-2 operand, of dynamic size. *)
Definition product_empty_inner : Product Z (Z * Z) :=
  {| m_lhs := dense "int" 10000 10000 2 0 32 HasDirectAccess (fun _ _ => 0);
     m_rhs := dense "int" 10000 10000 0 2 32 HasDirectAccess (fun _ _ => 0);
     ProductMode := NormalProduct |}.

(** The same shapes fixed at compile time: the inner size is the constant
    0. *)
Definition product_static_zero_inner : Product Z (Z * Z) :=
  {| m_lhs := dense "int" 2 0 2 0 32 HasDirectAccess (fun _ _ => 0);
     m_rhs := dense "int" 0 2 0 2 32 HasDirectAccess (fun _ _ => 0);
     ProductMode := NormalProduct |}.

(** The row vector (1 8 1 0), row-major with packet access, times the
    column vector of four ones, column-major with packet access; all sizes
    are fixed at compile time. *)
Definition product_1x4_4x1 : Product Z (Z * Z) :=
  {| m_lhs := dense "float" 1 4 1 4 (1 + 8 + 32) HasDirectAccess (of_rows [[1; 8; 1; 0]]);
     m_rhs := dense "float" 4 1 4 1 (8 + 32) HasDirectAccess (fun _ _ => 1);
     ProductMode := NormalProduct |}.


(** An 8-by-8 column-major expression without direct access, whose first
    two columns are ones and whose other columns are zeros, times a column
    vector of eight ones. *)
Definition product_colmajor_nodirect_vector : Product Z (Z * Z) :=
  {| m_lhs := dense "float" 10000 10000 8 8 0 NoDirectAccess (fun _ k => if k <? 2 then 1 else 0);
     m_rhs := dense "float" 10000 1 8 1 32 HasDirectAccess (fun _ _ => 1);
     ProductMode := CacheFriendlyProduct |}.

(** An 8-by-8 row-major expression without direct access times a column
    vector. *)
Definition product_rowmajor_nodirect_vector : Product Z (Z * Z) :=
  {| m_lhs := dense "float" 10000 10000 8 8 1 NoDirectAccess (fun i j => i + j);
     m_rhs := dense "float" 10000 1 8 1 32 HasDirectAccess (fun _ _ => 1);
     ProductMode := CacheFriendlyProduct |}.

(** A row vector times an 8-by-8 column-major expression without direct
    access. *)
Definition product_vector_colmajor_nodirect : Product Z (Z * Z) :=
  {| m_lhs := dense "float" 1 10000 1 8 (1 + 32) HasDirectAccess (fun _ _ => 1);
     m_rhs := dense "float" 10000 10000 8 8 0 NoDirectAccess (fun i j => i + j);
     ProductMode := CacheFriendlyProduct |}.



(** A column vector destination of eight entries equal to 8. *)
Definition column_of_eights : Matrix Z :=
  {| m_rows := 8; m_cols := 1; m_coeff := fun _ _ => 8 |}.

(** A 2-by-2 destination. *)
Definition destination_2x2 : Matrix Z :=
  {| m_rows := 2; m_cols := 2; m_coeff := of_rows [[10; 20]; [30; 40]] |}.

(** The rest of the two-lane packets: the broadcast, the multiply-add
    a*b+c, and the packet access of an operand, which is its aligned one. *)
Definition two_lane_loads (SO : ScalarOps Z) : PacketLoadOps Z (Z * Z) :=
  {| ei_pset1 := fun x => (x, x);
     ei_pmadd := fun a b c =>
       (add (mul (fst a) (fst b)) (fst c), add (mul (snd a) (snd b)) (snd c));
     packet_load := fun _ x i j => packet x i j |}.

Definition exact_loads : PacketLoadOps Z (Z * Z) := two_lane_loads exact_scalars.

(** [[1,2],[3,4]] times [[5,6],[7,8]] with sizes fixed at compile time. *)
Definition product_fixed_2x2 : Product Z (Z * Z) :=
  {| m_lhs := dense "int" 2 2 2 2 32 HasDirectAccess (of_rows [[1; 2]; [3; 4]]);
     m_rhs := dense "int" 2 2 2 2 32 HasDirectAccess (of_rows [[5; 6]; [7; 8]]);
     ProductMode := NormalProduct |}.

(** A row-major 2-by-0 operand with packet access times a column-major
    0-by-2 operand with packet access, of fixed size. *)
Definition product_vectorized_zero_inner : Product Z (Z * Z) :=
  {| m_lhs := dense "int" 2 0 2 0 (1 + 8 + 32) HasDirectAccess (fun _ _ => 0);
     m_rhs := dense "int" 0 2 0 2 (8 + 32) HasDirectAccess (fun _ _ => 0);
     ProductMode := NormalProduct |}.

(** A row-major 2-by-4 operand with packet access times a column-major
    4-by-2 operand with packet access, of dynamic size. *)
Definition product_vectorized_dynamic : Product Z (Z * Z) :=
  {| m_lhs := dense "int" 10000 10000 2 4 (1 + 8 + 32) HasDirectAccess (fun i j => i + j);
     m_rhs := dense "int" 10000 10000 4 2 (8 + 32) HasDirectAccess (fun i j => i * j);
     ProductMode := NormalProduct |}.


(** ** Properties *)

(** *** Loops as folds *)

Lemma Zrange_cons (first : Z) (n : nat) :
  Zrange first (S n) = first :: Zrange (first + 1) n.
Proof.
  unfold Zrange. simpl. f_equal.
  - lia.
  - rewrite <- seq_shift, map_map. apply map_ext. intros k. lia.
Qed.

Lemma Zrange_snoc (first : Z) (n : nat) :
  Zrange first (S n) = Zrange first n ++ [first + Z.of_nat n].
Proof.
  unfold Zrange. rewrite seq_S, map_app. reflexivity.
Qed.

Lemma for_steps_fold {St : Type} (body : Z -> St -> St) (n : nat) :
  forall (i : Z) (s : St),
    for_steps n i body s = fold_left (fun s i => body i s) (Zrange i n) s.
Proof.
  induction n as [|n IH]; intros i s.
  - reflexivity.
  - rewrite Zrange_cons. simpl. apply IH.
Qed.

Lemma for_loop_fold {St : Type} (first bound : Z) (body : Z -> St -> St) (s : St) :
  for_loop first bound body s
  = fold_left (fun s i => body i s) (Zrange first (Z.to_nat (bound - first))) s.
Proof.
  unfold for_loop. apply for_steps_fold.
Qed.

Lemma in_Zrange (first : Z) (n : nat) (i : Z) :
  In i (Zrange first n) <-> first <= i < first + Z.of_nat n.
Proof.
  unfold Zrange. rewrite in_map_iff. split.
  - intros [k [Hk Hin]]. apply in_seq in Hin. lia.
  - intros H. exists (Z.to_nat (i - first)). split; [lia|]. apply in_seq. lia.
Qed.

Section ScalarPathProperties.

Context {K : Constants}.
Context {Scalar Packet : Type}.
Context {SO : ScalarOps Scalar}.
Context {PO : PacketOps Scalar Packet}.

Local Notation "x [+] y" := (add x y) (at level 50, left associativity).
Local Notation "x [*] y" := (mul x y) (at level 40, left associativity).

Implicit Types (lhs rhs : Operand Scalar Packet) (p : Product Scalar Packet).

(** The instantiation rule of the scalar evaluator, whatever the depth
    bound is written as. *)
Lemma coeff_impl_NoVectorization_rec_eq (depth : nat) (Index row col : Z) lhs rhs (res : Scalar) :
  coeff_impl_NoVectorization_rec depth Index row col lhs rhs res =
  if Index =? Dynamic then coeff_impl_NoVectorization_Dynamic row col lhs rhs res
  else if Index =? 0 then coeff_impl_NoVectorization_0 row col lhs rhs res
  else if Index =? -1 then coeff_impl_NoVectorization_m1 row col lhs rhs res
  else
    match depth with
    | O => CompileError
    | S depth' =>
        res' <- coeff_impl_NoVectorization_rec depth' (Index - 1) row col lhs rhs res ;;
        Ok (res' [+] coeff_of lhs row Index [*] coeff_of rhs Index col)
    end.
Proof.
  destruct depth; reflexivity.
Qed.

(** The depth bound only cuts chains of instantiations that never end. A
    deeper bound does not change a result that a bound has produced. *)
Lemma coeff_impl_NoVectorization_rec_deeper (depth : nat) :
  forall (Index row col : Z) lhs rhs (res : Scalar),
    coeff_impl_NoVectorization_rec depth Index row col lhs rhs res <> CompileError ->
    forall depth', (depth <= depth')%nat ->
      coeff_impl_NoVectorization_rec depth' Index row col lhs rhs res
      = coeff_impl_NoVectorization_rec depth Index row col lhs rhs res.
Proof.
  induction depth as [|depth IH]; intros Index row col lhs rhs res Hok depth' Hle;
    rewrite (coeff_impl_NoVectorization_rec_eq depth') in *;
    rewrite (coeff_impl_NoVectorization_rec_eq _ Index) in Hok |- *;
    destruct (Index =? Dynamic); try reflexivity;
    destruct (Index =? 0); try reflexivity;
    destruct (Index =? -1); try reflexivity.
  - contradiction.
  - destruct depth' as [|depth']; [lia|].
    rewrite (IH (Index - 1) row col lhs rhs res); [reflexivity| |lia].
    intros Hce. rewrite Hce in Hok. apply Hok. reflexivity.
Qed.

(** A chain that starts below [-1] and below [Dynamic] never ends. *)
Lemma coeff_impl_NoVectorization_rec_endless (depth : nat) :
  forall (Index row col : Z) lhs rhs (res : Scalar),
    Index < -1 -> Index < Dynamic ->
    coeff_impl_NoVectorization_rec depth Index row col lhs rhs res = CompileError.
Proof.
  induction depth as [|depth IH]; intros Index row col lhs rhs res H1 Hd;
    rewrite coeff_impl_NoVectorization_rec_eq;
    replace (Index =? Dynamic) with false by (symmetry; apply Z.eqb_neq; lia);
    replace (Index =? 0) with false by (symmetry; apply Z.eqb_neq; lia);
    replace (Index =? -1) with false by (symmetry; apply Z.eqb_neq; lia).
  - reflexivity.
  - rewrite IH by lia. reflexivity.
Qed.

(** A chain that starts at [-1] or above ends within [Index] steps. *)
Lemma coeff_impl_NoVectorization_rec_ends_above (n : nat) :
  forall (depth : nat) (Index row col : Z) lhs rhs (res : Scalar),
    -1 <= Index <= Z.of_nat n -> (n <= depth)%nat ->
    coeff_impl_NoVectorization_rec depth Index row col lhs rhs res <> CompileError.
Proof.
  induction n as [|n IH]; intros depth Index row col lhs rhs res HIndex Hdepth;
    rewrite coeff_impl_NoVectorization_rec_eq;
    (destruct (Index =? Dynamic);
     [unfold coeff_impl_NoVectorization_Dynamic, ei_assert;
      destruct (cols_of lhs >? 0); discriminate|]);
    (destruct (Z.eqb_spec Index 0); [discriminate|]);
    (destruct (Z.eqb_spec Index (-1)); [discriminate|]).
  - lia.
  - destruct depth as [|depth]; [lia|].
    specialize (IH depth (Index - 1) row col lhs rhs res).
    destruct (coeff_impl_NoVectorization_rec depth (Index - 1) row col lhs rhs res);
      [discriminate|discriminate|].
    exfalso. apply IH; [lia|lia|reflexivity].
Qed.

(** A chain that starts at [Dynamic] or above ends within
    [Index - Dynamic] steps. *)
Lemma coeff_impl_NoVectorization_rec_ends_at_Dynamic (n : nat) :
  forall (depth : nat) (Index row col : Z) lhs rhs (res : Scalar),
    Dynamic <= Index <= Dynamic + Z.of_nat n -> (n <= depth)%nat ->
    coeff_impl_NoVectorization_rec depth Index row col lhs rhs res <> CompileError.
Proof.
  induction n as [|n IH]; intros depth Index row col lhs rhs res HIndex Hdepth;
    rewrite coeff_impl_NoVectorization_rec_eq;
    (destruct (Z.eqb_spec Index Dynamic);
     [unfold coeff_impl_NoVectorization_Dynamic, ei_assert;
      destruct (cols_of lhs >? 0); discriminate|]);
    (destruct (Z.eqb_spec Index 0); [discriminate|]);
    (destruct (Z.eqb_spec Index (-1)); [discriminate|]).
  - lia.
  - destruct depth as [|depth]; [lia|].
    specialize (IH depth (Index - 1) row col lhs rhs res).
    destruct (coeff_impl_NoVectorization_rec depth (Index - 1) row col lhs rhs res);
      [discriminate|discriminate|].
    exfalso. apply IH; [lia|lia|reflexivity].
Qed.

(** The depth of [coeff_impl_NoVectorization] is enough: no deeper bound
    gives another result. *)
Lemma instantiation_depth_suffices (depth : nat) (Index row col : Z) lhs rhs (res : Scalar) :
  (instantiation_depth Index <= depth)%nat ->
  coeff_impl_NoVectorization_rec depth Index row col lhs rhs res
  = coeff_impl_NoVectorization Index row col lhs rhs res.
Proof.
  intros Hdepth. unfold coeff_impl_NoVectorization.
  destruct (Z_lt_le_dec Index (-1)) as [Hbelow|Habove].
  - destruct (Z_lt_le_dec Index Dynamic) as [Hlt|Hge].
    + rewrite !coeff_impl_NoVectorization_rec_endless by assumption. reflexivity.
    + apply coeff_impl_NoVectorization_rec_deeper; [|assumption].
      apply (coeff_impl_NoVectorization_rec_ends_at_Dynamic (Z.to_nat (Index - Dynamic)));
        unfold instantiation_depth; lia.
  - apply coeff_impl_NoVectorization_rec_deeper; [|assumption].
    apply (coeff_impl_NoVectorization_rec_ends_above (Z.to_nat (Z.abs Index)));
      unfold instantiation_depth; lia.
Qed.

(** The unrolled chain [n, n-1, ..., 0] below [Dynamic] is the sum of
    [n+1] products taken from the left. *)
Lemma unrolled_chain (n : nat) :
  forall (depth : nat) (row col : Z) lhs rhs (res : Scalar),
    (n <= depth)%nat ->
    Z.of_nat n < Dynamic ->
    coeff_impl_NoVectorization_rec depth (Z.of_nat n) row col lhs rhs res
    = Ok (fold_left (fun acc i => acc [+] coeff_of lhs row i [*] coeff_of rhs i col)
            (Zrange 1 n) (coeff_of lhs row 0 [*] coeff_of rhs 0 col)).
Proof.
  induction n as [|n IH]; intros depth row col lhs rhs res Hdepth Hdyn.
  - rewrite coeff_impl_NoVectorization_rec_eq.
    replace (Z.of_nat 0 =? Dynamic) with false by (symmetry; apply Z.eqb_neq; lia).
    reflexivity.
  - rewrite coeff_impl_NoVectorization_rec_eq.
    replace (Z.of_nat (S n) =? Dynamic) with false by (symmetry; apply Z.eqb_neq; lia).
    replace (Z.of_nat (S n) =? 0) with false by (symmetry; apply Z.eqb_neq; lia).
    replace (Z.of_nat (S n) =? -1) with false by (symmetry; apply Z.eqb_neq; lia).
    destruct depth as [|depth]; [lia|].
    replace (Z.of_nat (S n) - 1) with (Z.of_nat n) by lia.
    rewrite IH by lia. simpl bind.
    rewrite Zrange_snoc, fold_left_app. cbn [fold_left].
    replace (1 + Z.of_nat n) with (Z.of_nat (S n)) by lia.
    reflexivity.
Qed.

Lemma dynamic_loop (row col : Z) lhs rhs (res : Scalar) :
  0 < cols_of lhs ->
  coeff_impl_NoVectorization_Dynamic row col lhs rhs res
  = Ok (dot_left_to_right (view lhs) (view rhs) row col (cols_of lhs)).
Proof.
  intros Hpos. unfold coeff_impl_NoVectorization_Dynamic, ei_assert.
  replace (cols_of lhs >? 0) with true by (symmetry; apply Z.gtb_lt; lia).
  rewrite for_loop_fold. reflexivity.
Qed.

Lemma unrolled_sum (N row col : Z) lhs rhs (res : Scalar) :
  0 < N -> N - 1 < Dynamic ->
  coeff_impl_NoVectorization (N - 1) row col lhs rhs res
  = Ok (dot_left_to_right (view lhs) (view rhs) row col N).
Proof.
  intros HN Hdyn. unfold coeff_impl_NoVectorization.
  replace (N - 1) with (Z.of_nat (Z.to_nat (N - 1))) at 2 by lia.
  rewrite unrolled_chain.
  - reflexivity.
  - unfold instantiation_depth. lia.
  - lia.
Qed.

Lemma dynamic_instance (row col : Z) lhs rhs (res : Scalar) :
  coeff_impl_NoVectorization Dynamic row col lhs rhs res
  = coeff_impl_NoVectorization_Dynamic row col lhs rhs res.
Proof.
  unfold coeff_impl_NoVectorization. rewrite coeff_impl_NoVectorization_rec_eq.
  rewrite Z.eqb_refl. reflexivity.
Qed.

(** When the limit of unrolling is below [Dynamic], an unrolled product of
    well-formed operands has a static inner size, which is the run-time
    one. *)
Lemma unrolled_inner_size p (k : Z) :
  EIGEN_UNROLLING_LIMIT < Dynamic ->
  well_formed (m_lhs p) -> well_formed (m_rhs p) ->
  cols_of (m_lhs p) = k -> rows_of (m_rhs p) = k ->
  Unroll p = true ->
  InnerSize p = k /\ k < Dynamic.
Proof.
  intros Hlimit [_ Hl] [Hr _] Hcols Hrows Hunroll.
  unfold Unroll, Product_CoeffReadCost in Hunroll.
  destruct (InnerSize p =? Dynamic) eqn:Hdyn.
  - apply Z.leb_le in Hunroll. lia.
  - apply Z.eqb_neq in Hdyn. unfold InnerSize in *.
    unfold static_size_ok in Hl, Hr. rewrite Hcols in Hl. rewrite Hrows in Hr.
    lia.
Qed.

(** C1, as amended. For every product of an m-by-k operand A and a k-by-n
    operand B with k > 0 whose coefficient evaluator is the scalar one (the
    inner loop is not vectorized), [coeff(r,c)] returns the dot product of
    row r of A and column c of B accumulated from the left: first
    [A(r,0)*B(0,c)], then [A(r,i)*B(i,c)] added for i = 1 .. k-1. This holds
    for the unrolled and for the run-time loop evaluator. *)
Theorem coeff_scalar_path_left_to_right p (row col k : Z) (uninit : Scalar) :
  EIGEN_UNROLLING_LIMIT < Dynamic ->
  well_formed (m_lhs p) -> well_formed (m_rhs p) ->
  cols_of (m_lhs p) = k -> rows_of (m_rhs p) = k -> 0 < k ->
  CanVectorizeInner p = false ->
  coeff p row col uninit
  = Ok (dot_left_to_right (view (m_lhs p)) (view (m_rhs p)) row col k).
Proof.
  intros Hlimit Hwl Hwr Hcols Hrows Hk Hvec.
  unfold coeff, ScalarCoeffImpl, ScalarCoeffImpl_mode, ScalarCoeffImpl_Index.
  rewrite Hvec. cbn [ei_product_coeff_impl].
  destruct (Unroll p) eqn:Hunroll.
  - destruct (unrolled_inner_size p k Hlimit Hwl Hwr Hcols Hrows Hunroll) as [Hinner Hbelow].
    rewrite Hinner. apply unrolled_sum; lia.
  - rewrite dynamic_instance, dynamic_loop by lia. rewrite Hcols. reflexivity.
Qed.

(** C6. On the lazy coefficient path with a run-time loop (no unrolling,
    no inner vectorization), an inner size [A.cols == 0] makes the assertion
    fail; for [A.cols > 0] the assertion passes and the loop adds the
    products of the indices 1 .. A.cols-1, in this order, to
    [A(r,0)*B(0,c)]. *)
Theorem dynamic_path_asserts_positive_inner_size p (row col : Z) (uninit : Scalar) :
  CanVectorizeInner p = false -> Unroll p = false ->
  (cols_of (m_lhs p) = 0 -> coeff p row col uninit = AssertFail) /\
  (0 < cols_of (m_lhs p) ->
   coeff p row col uninit
   = Ok (fold_left
           (fun res i => res [+] coeff_of (m_lhs p) row i [*] coeff_of (m_rhs p) i col)
           (Zrange 1 (Z.to_nat (cols_of (m_lhs p) - 1)))
           (coeff_of (m_lhs p) row 0 [*] coeff_of (m_rhs p) 0 col))).
Proof.
  intros Hvec Hunroll.
  unfold coeff, ScalarCoeffImpl, ScalarCoeffImpl_mode, ScalarCoeffImpl_Index.
  rewrite Hvec, Hunroll. cbn [ei_product_coeff_impl]. rewrite dynamic_instance.
  split.
  - intros Hzero. unfold coeff_impl_NoVectorization_Dynamic, ei_assert.
    rewrite Hzero. reflexivity.
  - intros Hpos. rewrite dynamic_loop by assumption. reflexivity.
Qed.

(** C7. For every compile-time inner size N > 0 (a static size: the chain
    N-1, ..., 0 stays at or below the value of [Dynamic]) and every (r,c),
    the unrolled scalar evaluator instantiated at [Index = N-1] returns
    exactly what the run-time loop evaluator returns on the same operands,
    whose inner size is N: both are the sum of the N products taken from the
    left. *)
Theorem unrolled_equals_dynamic (N row col : Z) lhs rhs (res res' : Scalar) :
  0 < N -> N - 1 <= Dynamic -> cols_of lhs = N ->
  ei_product_coeff_impl NoVectorization (N - 1) row col lhs rhs res
  = ei_product_coeff_impl NoVectorization Dynamic row col lhs rhs res'
  /\ ei_product_coeff_impl NoVectorization Dynamic row col lhs rhs res'
     = Ok (dot_left_to_right (view lhs) (view rhs) row col N).
Proof.
  intros HN Hdyn Hcols. cbn [ei_product_coeff_impl].
  assert (Hloop : coeff_impl_NoVectorization Dynamic row col lhs rhs res'
                  = Ok (dot_left_to_right (view lhs) (view rhs) row col N)).
  { rewrite dynamic_instance, dynamic_loop by lia. rewrite Hcols. reflexivity. }
  split; [|exact Hloop].
  rewrite Hloop.
  destruct (Z.eq_dec (N - 1) Dynamic) as [Heq|Hne].
  - rewrite Heq, dynamic_instance, dynamic_loop by lia. rewrite Hcols. reflexivity.
  - apply unrolled_sum; lia.
Qed.

(** C9. The product node has the rows of its left operand and the columns
    of its right operand, whatever its product mode. *)
Theorem product_shape lhs rhs (mode : ProductModes) :
  rows {| m_lhs := lhs; m_rhs := rhs; ProductMode := mode |} = m_rows (view lhs) /\
  cols {| m_lhs := lhs; m_rhs := rhs; ProductMode := mode |} = m_cols (view rhs).
Proof.
  split; reflexivity.
Qed.

(** C10, as amended. For a product whose compile-time inner size is 0 and
    whose inner loop is not vectorized, the evaluator is the unrolled scalar
    one, instantiated at [Index = -1]; its [run] leaves [res] as it found
    it, so [coeff(r,c)] returns whatever the uninitialized local held: no
    assertion fails, and the value is not 0 unless the local happened to
    hold 0. When the inner loop is vectorized, [coeff] does not compile. *)
Theorem zero_inner_size_returns_uninitialized p (row col : Z) (uninit : Scalar) :
  Dynamic <> 0 -> Dynamic <> -1 ->
  - AddCost <= EIGEN_UNROLLING_LIMIT ->
  InnerSize p = 0 ->
  CanVectorizeInner p = false ->
  ScalarCoeffImpl_mode p = NoVectorization /\
  ScalarCoeffImpl_Index p = -1 /\
  coeff p row col uninit = Ok uninit.
Proof.
  intros Hd0 Hd1 Hcost Hinner Hvec.
  assert (Hunroll : Unroll p = true).
  { unfold Unroll, Product_CoeffReadCost. rewrite Hinner.
    replace (0 =? Dynamic) with false by (symmetry; apply Z.eqb_neq; lia).
    apply Z.leb_le. lia. }
  assert (Hindex : ScalarCoeffImpl_Index p = -1).
  { unfold ScalarCoeffImpl_Index. rewrite Hunroll, Hinner. reflexivity. }
  assert (Hmode : ScalarCoeffImpl_mode p = NoVectorization).
  { unfold ScalarCoeffImpl_mode. rewrite Hvec. reflexivity. }
  repeat split; try assumption.
  unfold coeff, ScalarCoeffImpl. rewrite Hmode, Hindex. cbn [ei_product_coeff_impl].
  unfold coeff_impl_NoVectorization. rewrite coeff_impl_NoVectorization_rec_eq.
  replace (-1 =? Dynamic) with false by (symmetry; apply Z.eqb_neq; lia).
  reflexivity.
Qed.


End ScalarPathProperties.

(** *** The kernel selector *)

Lemma select_by_cases_correct (t : SelectorTags) : select t = select_by_cases t.
Proof.
  destruct t as [lr lo la rc ro ra].
  unfold select, select_by_cases, matches, all_specializations; cbn -[Z.eqb].
  rewrite !(Z.eqb_sym 1 lr), !(Z.eqb_sym 1 rc).
  destruct (lr =? 1), (rc =? 1), lo, la, ro, ra; reflexivity.
Qed.

Section CacheFriendlyProperties.

Context {K : Constants}.
Context {Scalar Packet : Type}.
Context {SO : ScalarOps Scalar}.
Context {PO : PacketOps Scalar Packet}.

Local Notation "x [+] y" := (add x y) (at level 50, left associativity).
Local Notation "x [*] y" := (mul x y) (at level 40, left associativity).

Implicit Types (lhs rhs : Operand Scalar Packet) (p : Product Scalar Packet).

(** C3, as amended. For a row-major left operand without direct access
    times a vector, and for a vector times a column-major right operand
    without direct access, the selector does not fall through to the general
    kernel: it resolves to a specialization that declares no [run] (or, when
    both the left rows and the right columns are 1, to an ambiguity), so
    that its use does not compile. The primary template, which calls
    [_cacheFriendlyEvalAndAdd], is chosen exactly when neither the left rows
    nor the right columns are 1, and the selector has a [run] exactly
    outside these two families and outside the products of a row vector by a
    column vector. *)
Theorem selector_discards_nodirect_vector_products p (res : Matrix Scalar) (alpha : Scalar) :
  (RhsCols (selector_tags p) = 1 ->
   LhsOrder (selector_tags p) = RowMajor ->
   LhsHasDirectAccess (selector_tags p) = NoDirectAccess ->
   selector_run res p alpha = CompileError /\
   (LhsRows (selector_tags p) <> 1 ->
    select (selector_tags p) = Specialized discarded_rowmajor_nodirect_times_vector)) /\
  (LhsRows (selector_tags p) = 1 ->
   RhsOrder (selector_tags p) = ColMajor ->
   RhsHasDirectAccess (selector_tags p) = NoDirectAccess ->
   selector_run res p alpha = CompileError /\
   (RhsCols (selector_tags p) <> 1 ->
    select (selector_tags p) = Specialized discarded_vector_times_colmajor_nodirect)) /\
  (select (selector_tags p) = Primary <->
   LhsRows (selector_tags p) <> 1 /\ RhsCols (selector_tags p) <> 1) /\
  (select (selector_tags p) = Primary ->
   selector_run res p alpha = _cacheFriendlyEvalAndAdd p res alpha) /\
  (selector_defined (selector_tags p) = true <->
   ~ (LhsRows (selector_tags p) = 1 /\ RhsCols (selector_tags p) = 1) /\
   ~ (RhsCols (selector_tags p) = 1 /\ LhsOrder (selector_tags p) = RowMajor /\
      LhsHasDirectAccess (selector_tags p) = NoDirectAccess) /\
   ~ (LhsRows (selector_tags p) = 1 /\ RhsOrder (selector_tags p) = ColMajor /\
      RhsHasDirectAccess (selector_tags p) = NoDirectAccess)).
Proof.
  unfold selector_run, selector_defined. rewrite select_by_cases_correct.
  unfold select_by_cases.
  destruct (selector_tags p) as [lr lo la rc ro ra]; cbn.
  destruct (Z.eqb_spec lr 1) as [Hlr|Hlr], (Z.eqb_spec rc 1) as [Hrc|Hrc].
  - repeat split; try discriminate; try tauto; intros; try tauto; try discriminate.
  - repeat split; intros; subst; try discriminate; try tauto; try congruence;
      destruct ro, ra; cbn in *; try discriminate; try reflexivity; try tauto;
      try (intuition congruence).
  - repeat split; intros; subst; try discriminate; try tauto; try congruence;
      destruct lo, la; cbn in *; try discriminate; try reflexivity; try tauto;
      try (intuition congruence).
  - repeat split; intros; subst; try discriminate; try tauto; try congruence;
      try (intuition congruence).
Qed.

(** *** The two loops of the selector *)

(** A loop of [res += e k] accumulates, in every coefficient, the
    coefficients of the expressions from the left. *)
Lemma add_assign_fold (e : Z -> Z -> Z -> Scalar) (l : list Z) :
  forall (res : Matrix Scalar),
    let res' := fold_left (fun res k => add_assign res (e k)) l res in
    m_rows res' = m_rows res /\ m_cols res' = m_cols res /\
    forall i j, m_coeff res' i j = fold_left (fun acc k => acc [+] e k i j) l (m_coeff res i j).
Proof.
  induction l as [|k l IH]; intros res; cbn.
  - repeat split.
  - destruct (IH (add_assign res (e k))) as [Hr [Hc Hcoeff]].
    repeat split; assumption.
Qed.

Lemma run_colmajor_nodirect_unit p (res : Matrix Scalar) (alpha : Scalar) :
  eqb alpha (of_int 1) = true ->
  exists res', run_colmajor_nodirect_times_vector res p alpha = Ok res' /\
    m_rows res' = m_rows res /\ m_cols res' = m_cols res /\
    forall i j, m_coeff res' i j = accumulated_columns p res i j.
Proof.
  intros Halpha. unfold run_colmajor_nodirect_times_vector, ei_assert. rewrite Halpha.
  eexists. split; [reflexivity|].
  rewrite for_loop_fold, Z.sub_0_r.
  exact (add_assign_fold
           (fun k i _ => coeff_of (m_rhs p) k 0 [*] coeff_of (m_lhs p) i k) _ res).
Qed.

Lemma run_rowmajor_nodirect_unit p (res : Matrix Scalar) (alpha : Scalar) :
  eqb alpha (of_int 1) = true ->
  exists res', run_vector_times_rowmajor_nodirect res p alpha = Ok res' /\
    m_rows res' = m_rows res /\ m_cols res' = m_cols res /\
    forall i c, m_coeff res' i c = accumulated_rows p res i c.
Proof.
  intros Halpha. unfold run_vector_times_rowmajor_nodirect, ei_assert. rewrite Halpha.
  eexists. split; [reflexivity|].
  rewrite for_loop_fold, Z.sub_0_r.
  exact (add_assign_fold
           (fun j _ c => coeff_of (m_lhs p) 0 j [*] coeff_of (m_rhs p) j c) _ res).
Qed.

Lemma with_selector_run_defined {A : Type} p (body : Exec A) :
  selector_defined (selector_tags p) = true -> with_selector_run p body = body.
Proof.
  intros Hrun. unfold with_selector_run. rewrite Hrun. reflexivity.
Qed.

Lemma with_selector_run_undefined {A : Type} p (body : Exec A) :
  selector_defined (selector_tags p) = false -> with_selector_run p body = CompileError.
Proof.
  intros Hnone. unfold with_selector_run. rewrite Hnone. reflexivity.
Qed.

(** C5. The selector paths for a column-major matrix without direct access
    times a vector, and for a vector times a row-major matrix without direct
    access, assert [alpha == 1] before they accumulate. With an [alpha] that
    does not compare equal to 1 the assertion fails; in particular
    [C -= A*B], which passes -1, fails the assertion whenever
    [_useCacheFriendlyProduct()] holds and the product is routed through one
    of the two paths. With [alpha == 1] the assertion passes and every
    coefficient of the destination receives the sum of the terms
    [rhs(k) * A(i,k)] (respectively [lhs(j) * B(j,c)]), added one after the
    other in the order of the loop; this is what [C += A*B] does on these
    paths. *)
Theorem nodirect_paths_assert_unit_alpha p (res : Matrix Scalar) (alpha : Scalar) :
  (eqb alpha (of_int 1) = false ->
   run_colmajor_nodirect_times_vector res p alpha = AssertFail /\
   run_vector_times_rowmajor_nodirect res p alpha = AssertFail) /\
  (eqb alpha (of_int 1) = true ->
   (exists res', run_colmajor_nodirect_times_vector res p alpha = Ok res' /\
      m_rows res' = m_rows res /\ m_cols res' = m_cols res /\
      forall i j, m_coeff res' i j = accumulated_columns p res i j) /\
   (exists res', run_vector_times_rowmajor_nodirect res p alpha = Ok res' /\
      m_rows res' = m_rows res /\ m_cols res' = m_cols res /\
      forall i c, m_coeff res' i c = accumulated_rows p res i c)) /\
  (_useCacheFriendlyProduct p = true ->
   select (selector_tags p) = Specialized colmajor_nodirect_times_vector \/
   select (selector_tags p) = Specialized vector_times_rowmajor_nodirect ->
   forall junk : Z -> Z -> Scalar,
     (eqb (of_int (-1)) (of_int 1) = false ->
      operator_minus_eq res p junk = AssertFail) /\
     (eqb (of_int 1) (of_int 1) = true ->
      exists res', operator_plus_eq res p junk = Ok res' /\
        m_rows res' = m_rows res /\ m_cols res' = m_cols res /\
        forall i j,
          m_coeff res' i j
          = match select (selector_tags p) with
            | Specialized colmajor_nodirect_times_vector => accumulated_columns p res i j
            | _ => accumulated_rows p res i j
            end)).
Proof.
  split; [|split].
  - intros Halpha.
    unfold run_colmajor_nodirect_times_vector, run_vector_times_rowmajor_nodirect, ei_assert.
    rewrite Halpha. split; reflexivity.
  - intros Halpha. split.
    + apply run_colmajor_nodirect_unit; assumption.
    + apply run_rowmajor_nodirect_unit; assumption.
  - intros Huse Hroute junk.
    unfold operator_minus_eq, operator_plus_eq, with_selector_run, selector_defined,
      selector_run.
    rewrite Huse.
    destruct Hroute as [Hsel|Hsel]; rewrite Hsel; cbn [declares_run]; split.
    + intros Hneq. unfold run_colmajor_nodirect_times_vector, ei_assert.
      rewrite Hneq. reflexivity.
    + intros Heq. apply run_colmajor_nodirect_unit; assumption.
    + intros Hneq. unfold run_vector_times_rowmajor_nodirect, ei_assert.
      rewrite Hneq. reflexivity.
    + intros Heq. apply run_rowmajor_nodirect_unit; assumption.
Qed.

(** *** Compound assignment against assignment of the sum *)

Lemma coeff_impl_NoVectorization_rec_uninit (depth : nat) :
  forall (Index row col : Z) lhs rhs (u1 u2 : Scalar),
    Index <> -1 \/ Index = Dynamic ->
    coeff_impl_NoVectorization_rec depth Index row col lhs rhs u1
    = coeff_impl_NoVectorization_rec depth Index row col lhs rhs u2.
Proof.
  induction depth as [|depth IH]; intros Index row col lhs rhs u1 u2 HIndex;
    rewrite !(coeff_impl_NoVectorization_rec_eq _ Index);
    destruct (Z.eqb_spec Index Dynamic) as [Hd|Hd]; try reflexivity;
    destruct (Z.eqb_spec Index 0) as [H0|H0]; try reflexivity;
    destruct (Z.eqb_spec Index (-1)) as [H1|H1]; try reflexivity;
    try (exfalso; destruct HIndex; contradiction).
  rewrite (IH (Index - 1) row col lhs rhs u1 u2) by (left; lia).
  reflexivity.
Qed.

(** Unless the compile-time inner size is 0, the coefficient does not
    depend on what the uninitialized local held. *)
Lemma coeff_uninit_irrelevant p (row col : Z) (u1 u2 : Scalar) :
  InnerSize p <> 0 ->
  coeff p row col u1 = coeff p row col u2.
Proof.
  intros Hinner.
  assert (HIndex : ScalarCoeffImpl_Index p <> -1 \/ ScalarCoeffImpl_Index p = Dynamic).
  { unfold ScalarCoeffImpl_Index. destruct (Unroll p); [left; lia | right; reflexivity]. }
  unfold coeff, ScalarCoeffImpl.
  destruct (ScalarCoeffImpl_mode p); cbn [ei_product_coeff_impl].
  - apply coeff_impl_NoVectorization_rec_uninit. exact HIndex.
  - unfold coeff_impl_InnerVectorization.
    destruct (ScalarCoeffImpl_Index p =? Dynamic); [reflexivity|].
    unfold coeff_impl_NoVectorization.
    rewrite (coeff_impl_NoVectorization_rec_uninit _ _ row col _ _ u1 u2 HIndex).
    reflexivity.
Qed.

Lemma agree_on_weaken (P Q : Z -> Z -> Prop) (x y : Exec (Matrix Scalar)) :
  (forall i j, Q i j -> P i j) -> agree_on P x y -> agree_on Q x y.
Proof.
  intros HQP. destruct x as [X| |], y as [Y| |]; cbn; try tauto.
  intros [Hr [Hc H]]. repeat split; try assumption. intros i j HQ. apply H, HQP, HQ.
Qed.

(** Two coefficient-wise assignments of expressions with the same
    coefficients agree on the indices they have stored. *)
Lemma assign_fold_agree (e1 e2 : Z -> Z -> Exec Scalar) (l : list (Z * Z)) :
  (forall i j, e1 i j = e2 i j) ->
  forall (P : Z -> Z -> Prop) (acc1 acc2 : Exec (Matrix Scalar)),
    agree_on P acc1 acc2 ->
    agree_on (fun i j => P i j \/ In (i, j) l)
      (fold_left (fun acc ij =>
         m <- acc ;; v <- e1 (fst ij) (snd ij) ;; Ok (set_coeff m (fst ij) (snd ij) v)) l acc1)
      (fold_left (fun acc ij =>
         m <- acc ;; v <- e2 (fst ij) (snd ij) ;; Ok (set_coeff m (fst ij) (snd ij) v)) l acc2).
Proof.
  intros He. induction l as [|[a b] l IH]; intros P acc1 acc2 Hacc; cbn [fold_left].
  - apply (agree_on_weaken P); [|exact Hacc]. intros i j [H|[]]. exact H.
  - apply (agree_on_weaken (fun i j => (P i j \/ (i = a /\ j = b)) \/ In (i, j) l)).
    + intros i j [H|[H|H]]; [tauto| |tauto].
      inversion H; subst. tauto.
    + apply IH. cbn [fst snd]. rewrite <- He.
      destruct acc1 as [X| |], acc2 as [Y| |]; cbn in Hacc |- *; try tauto.
      destruct (e1 a b) as [v| |]; cbn; try tauto.
      destruct Hacc as [Hr [Hc H]]. repeat split; try assumption.
      intros i j [HP|[Hi Hj]].
      * rewrite (H i j HP). reflexivity.
      * subst. rewrite !Z.eqb_refl. reflexivity.
Qed.

Lemma in_index_pairs (rows cols i j : Z) :
  In (i, j) (index_pairs rows cols) <-> 0 <= i < rows /\ 0 <= j < cols.
Proof.
  unfold index_pairs. rewrite in_prod_iff, !in_Zrange. lia.
Qed.

(** The lazy path: both statements evaluate the same expression. *)
Lemma lazy_path_same_outcome p (C : Matrix Scalar) (junk1 junk2 : Z -> Z -> Scalar) :
  m_rows C = rows p -> m_cols C = cols p ->
  _useCacheFriendlyProduct p = false ->
  InnerSize p <> 0 ->
  same_outcome (operator_plus_eq C p junk1) (fresh_sum C p junk2).
Proof.
  intros Hrows Hcols Hlazy Hinner.
  unfold operator_plus_eq, fresh_sum, sum_with_product, nested_product, lazyAssign.
  destruct (selector_defined (selector_tags p)) eqn:Hrun;
    [|rewrite !with_selector_run_undefined by assumption; exact I].
  rewrite !with_selector_run_defined by assumption.
  rewrite Hlazy. unfold Product_new, ei_assert.
  destruct (cols_of (m_lhs p) =? rows_of (m_rhs p)); [|exact I].
  cbn [bind]. unfold lazyAssign_NormalProduct, assign_coeffs. cbn [m_rows m_cols].
  set (normal := {| m_lhs := m_lhs p; m_rhs := m_rhs p; ProductMode := NormalProduct |}).
  pose proof (assign_fold_agree
                (fun i j => coeff normal i j (junk1 i j))
                (fun i j => coeff normal i j (junk2 i j))
                (index_pairs (rows p) (cols p))
                (fun i j => coeff_uninit_irrelevant normal i j _ _ Hinner)
                (fun _ _ => False)
                (Ok {| m_rows := rows p; m_cols := cols p; m_coeff := junk1 |})
                (Ok {| m_rows := rows p; m_cols := cols p; m_coeff := junk2 |})) as Hagree.
  cbn beta in Hagree.
  match type of Hagree with
  | _ -> agree_on _ ?x ?y => destruct x as [T1| |], y as [T2| |]
  end; cbn in Hagree |- *;
    try (apply Hagree; repeat split; try reflexivity; intros ? ? []).
  destruct Hagree as [_ [_ H]]; [repeat split; try reflexivity; intros ? ? []|].
  repeat split. intros i j Hi Hj. cbn in Hi, Hj |- *.
  rewrite (H i j); [reflexivity|].
  right. apply in_index_pairs. lia.
Qed.

Section ExactAddition.

(** Scalar addition as in exact arithmetic: associative, with [Scalar(0)]
    neutral on both sides. *)
Hypothesis add_assoc : forall x y z : Scalar, x [+] (y [+] z) = (x [+] y) [+] z.
Hypothesis add_0_l : forall x : Scalar, of_int 0 [+] x = x.
Hypothesis add_0_r : forall x : Scalar, x [+] of_int 0 = x.

Lemma fold_add_shift {A : Type} (f : A -> Scalar) (l : list A) :
  forall c x : Scalar,
    fold_left (fun acc k => acc [+] f k) l (c [+] x)
    = c [+] fold_left (fun acc k => acc [+] f k) l x.
Proof.
  induction l as [|k l IH]; intros c x; cbn.
  - reflexivity.
  - rewrite <- add_assoc. apply IH.
Qed.

(** Accumulating onto [c] is adding to [c] what is accumulated onto 0. *)
Lemma fold_add_from_zero {A : Type} (f : A -> Scalar) (l : list A) (c : Scalar) :
  fold_left (fun acc k => acc [+] f k) l c
  = c [+] fold_left (fun acc k => acc [+] f k) l (of_int 0).
Proof.
  destruct l as [|k l]; cbn.
  - symmetry. apply add_0_r.
  - rewrite add_0_l. apply fold_add_shift.
Qed.

End ExactAddition.

Lemma pointwise_fold (t : Z -> Z -> Scalar) (l : list Z) :
  forall (res : Z -> Scalar) (i : Z),
    fold_left (fun res k => fun i => res i [+] t k i) l res i
    = fold_left (fun acc k => acc [+] t k i) l (res i).
Proof.
  induction l as [|k l IH]; intros res i; cbn.
  - reflexivity.
  - rewrite IH. reflexivity.
Qed.

Lemma colmajor_kernel_fold (cl cr : bool) (size : Z) (A : Z -> Z -> Scalar)
    (x : LinearView Scalar) (res : Z -> Scalar) (alpha : Scalar) (i : Z) :
  ei_cache_friendly_product_colmajor_times_vector cl cr size A x res alpha i
  = fold_left (fun acc k => acc [+] (alpha [*] cj cr (lv_coeff x k)) [*] cj cl (A i k))
      (Zrange 0 (Z.to_nat (lv_size x))) (res i).
Proof.
  unfold ei_cache_friendly_product_colmajor_times_vector.
  rewrite for_loop_fold, Z.sub_0_r.
  apply (pointwise_fold (fun k i => (alpha [*] cj cr (lv_coeff x k)) [*] cj cl (A i k))).
Qed.

(** The cache-friendly path: [C += A*B] adds the terms into [C], the sum
    [C + A*B] adds to [C] the product evaluated from zero. *)
Lemma cache_friendly_path_same_outcome p (C : Matrix Scalar) (junk1 junk2 : Z -> Z -> Scalar) :
  (forall x y z : Scalar, x [+] (y [+] z) = (x [+] y) [+] z) ->
  (forall x : Scalar, of_int 0 [+] x = x) ->
  (forall x : Scalar, x [+] of_int 0 = x) ->
  Dynamic <> 1 ->
  well_formed (m_lhs p) -> well_formed (m_rhs p) ->
  m_rows C = rows p -> m_cols C = cols p ->
  _useCacheFriendlyProduct p = true ->
  same_outcome (operator_plus_eq C p junk1) (fresh_sum C p junk2).
Proof.
  intros Hassoc H0l H0r Hdyn [Hwl _] [_ Hwr] Hrows Hcols Huse.
  assert (Hcol0 : RhsCols (selector_tags p) = 1 ->
                  forall j, 0 <= j < m_cols C -> j = 0).
  { cbn. unfold Product_ColsAtCompileTime. intros H1 j Hj.
    rewrite H1 in Hwr. unfold static_size_ok in Hwr.
    unfold cols in Hcols. lia. }
  assert (Hrow0 : LhsRows (selector_tags p) = 1 ->
                  forall i, 0 <= i < m_rows C -> i = 0).
  { cbn. unfold Product_RowsAtCompileTime. intros H1 i Hi.
    rewrite H1 in Hwl. unfold static_size_ok in Hwl.
    unfold rows in Hrows. lia. }
  unfold operator_plus_eq, fresh_sum, sum_with_product, nested_product, lazyAssign.
  destruct (selector_defined (selector_tags p)) eqn:Hrun;
    [|rewrite !with_selector_run_undefined by assumption; exact I].
  rewrite !with_selector_run_defined by assumption.
  rewrite Huse. unfold selector_run. rewrite select_by_cases_correct.
  unfold select_by_cases.
  destruct (Z.eqb_spec (LhsRows (selector_tags p)) 1) as [Hlr|Hlr];
    destruct (Z.eqb_spec (RhsCols (selector_tags p)) 1) as [Hrc|Hrc].
  - exact I.
  - specialize (Hrow0 Hlr).
    destruct (RhsOrder (selector_tags p)), (RhsHasDirectAccess (selector_tags p));
      cbn [vector_times_mat_case]; try exact I.
    + (* vector times column-major, direct access *)
      cbn. repeat split. intros i j Hi Hj.
      unfold ei_cache_friendly_product_rowmajor_times_vector, row_of. cbn.
      rewrite H0l, (Hrow0 i Hi). reflexivity.
    + (* vector times row-major, no direct access *)
      unfold run_vector_times_rowmajor_nodirect, ei_assert.
      destruct (eqb (of_int 1) (of_int 1)); [|exact I].
      cbn [bind same_outcome same_contents lazyAssign_expression m_rows m_cols m_coeff].
      rewrite !for_loop_fold, !Z.sub_0_r.
      set (e := fun (j : Z) (_ c : Z) =>
                  coeff_of (m_lhs p) 0 j [*] coeff_of (m_rhs p) j c).
      destruct (add_assign_fold e (Zrange 0 (Z.to_nat (cols_of (m_lhs p)))) C)
        as [Hr [Hc Hcoeff]].
      destruct (add_assign_fold e (Zrange 0 (Z.to_nat (cols_of (m_lhs p))))
                  (setZero {| m_rows := rows p; m_cols := cols p; m_coeff := junk2 |}))
        as [_ [_ Hcoeff0]].
      cbn zeta in Hr, Hc, Hcoeff, Hcoeff0.
      repeat split; try assumption. intros i j Hi Hj.
      cbn [lazyAssign_expression m_coeff].
      rewrite Hcoeff, Hcoeff0. cbn [setZero m_coeff].
      apply fold_add_from_zero; assumption.
    + (* vector times row-major, direct access *)
      unfold run_vector_times_rowmajor_direct. cbn [bind same_outcome].
      unfold same_contents.
      cbn [lazyAssign_expression with_row m_rows m_cols m_coeff setZero].
      repeat split. intros i j Hi Hj.
      unfold row_of. rewrite !colmajor_kernel_fold. cbn [m_coeff setZero].
      rewrite (Hrow0 i Hi).
      apply fold_add_from_zero; assumption.
  - specialize (Hcol0 Hrc).
    destruct (LhsOrder (selector_tags p)), (LhsHasDirectAccess (selector_tags p));
      cbn [mat_times_vector_case]; try exact I.
    + (* column-major without direct access times vector *)
      unfold run_colmajor_nodirect_times_vector, ei_assert.
      destruct (eqb (of_int 1) (of_int 1)); [|exact I].
      cbn [bind same_outcome same_contents lazyAssign_expression m_rows m_cols m_coeff].
      rewrite !for_loop_fold, !Z.sub_0_r.
      set (e := fun (k : Z) (i _ : Z) =>
                  coeff_of (m_rhs p) k 0 [*] coeff_of (m_lhs p) i k).
      destruct (add_assign_fold e (Zrange 0 (Z.to_nat (rows_of (m_rhs p)))) C)
        as [Hr [Hc Hcoeff]].
      destruct (add_assign_fold e (Zrange 0 (Z.to_nat (rows_of (m_rhs p))))
                  (setZero {| m_rows := rows p; m_cols := cols p; m_coeff := junk2 |}))
        as [_ [_ Hcoeff0]].
      cbn zeta in Hr, Hc, Hcoeff, Hcoeff0.
      repeat split; try assumption. intros i j Hi Hj.
      cbn [lazyAssign_expression m_coeff].
      rewrite Hcoeff, Hcoeff0. cbn [setZero m_coeff].
      apply fold_add_from_zero; assumption.
    + (* column-major with direct access times vector *)
      unfold run_colmajor_direct_times_vector. cbn [bind same_outcome].
      unfold same_contents.
      cbn [lazyAssign_expression with_column m_rows m_cols m_coeff setZero].
      repeat split. intros i j Hi Hj.
      unfold column_of. rewrite !colmajor_kernel_fold. cbn [m_coeff setZero].
      rewrite (Hcol0 j Hj).
      apply fold_add_from_zero; assumption.
    + (* row-major with direct access times vector *)
      cbn. repeat split. intros i j Hi Hj.
      unfold ei_cache_friendly_product_rowmajor_times_vector, column_of. cbn.
      rewrite H0l, (Hcol0 j Hj). reflexivity.
  - (* the general kernel *)
    cbn. repeat split. intros i j Hi Hj.
    cbn [lazyAssign_expression m_coeff].
    unfold ei_general_matrix_matrix_product. rewrite H0l. reflexivity.
Qed.

(** C8, as amended. For every destination C of the shape of a product A*B,
    [C += A*B] and the assignment of [C + A*B] to a fresh matrix end the same
    way, with the same contents:
    - on the lazy path, when the compile-time inner size is not 0 (a
      coefficient of a product with inner size 0 is indeterminate);
    - on the cache-friendly path, when scalar addition is associative and
      [Scalar(0)] is neutral for it, as in exact arithmetic: [C += A*B] adds
      the terms of the product into C one after the other, while [C + A*B]
      adds to C the product accumulated from zero. *)
Theorem plus_eq_agrees_with_fresh_sum p (C : Matrix Scalar) (junk1 junk2 : Z -> Z -> Scalar) :
  m_rows C = rows p -> m_cols C = cols p ->
  (_useCacheFriendlyProduct p = false ->
   InnerSize p <> 0 ->
   same_outcome (operator_plus_eq C p junk1) (fresh_sum C p junk2)) /\
  (_useCacheFriendlyProduct p = true ->
   (forall x y z : Scalar, x [+] (y [+] z) = (x [+] y) [+] z) ->
   (forall x : Scalar, of_int 0 [+] x = x) ->
   (forall x : Scalar, x [+] of_int 0 = x) ->
   Dynamic <> 1 ->
   well_formed (m_lhs p) -> well_formed (m_rhs p) ->
   same_outcome (operator_plus_eq C p junk1) (fresh_sum C p junk2)).
Proof.
  intros Hrows Hcols. split.
  - intros Hlazy Hinner. apply lazy_path_same_outcome; assumption.
  - intros Huse Hassoc H0l H0r Hdyn Hwl Hwr.
    apply cache_friendly_path_same_outcome; assumption.
Qed.

End CacheFriendlyProperties.

(** *** The classifier against the specification and against the selector *)

Section ClassifierProperties.

Context {K : Constants}.
Context {Scalar Packet : Type}.
Context {SO : ScalarOps Scalar}.
Context {PO : PacketOps Scalar Packet}.

Implicit Types (p : Product Scalar Packet).

(** X17. The flags of every product contain [EvalBeforeNestingBit] and
    [EvalBeforeAssigningBit], whatever the flags of the operands, the
    product mode and the values of the flag constants are. *)
Lemma product_flags_eval_before p :
  Z.land (Product_Flags p) EvalBeforeNestingBit = EvalBeforeNestingBit /\
  Z.land (Product_Flags p) EvalBeforeAssigningBit = EvalBeforeAssigningBit.
Proof.
  unfold Product_Flags. split; apply Z.bits_inj'; intros n _;
    rewrite Z.land_spec, !Z.lor_spec.
  - destruct (Z.testbit EvalBeforeNestingBit n);
      rewrite ?orb_true_r, ?andb_false_r; reflexivity.
  - destruct (Z.testbit EvalBeforeAssigningBit n);
      rewrite ?orb_true_r, ?andb_false_r; reflexivity.
Qed.

(** [ei_product_mode] is the classifier of the specification whenever its
    enumerator [LhsIsVectorAtCompileTime] tells whether the left operand is
    a vector. *)
Lemma ei_product_mode_agrees (A B : Traits) :
  LhsIsVectorAtCompileTime A B = IsVectorAtCompileTime A ->
  ei_product_mode A B = spec_product_mode A B.
Proof.
  intros H. unfold ei_product_mode, spec_product_mode, spec_is_vector,
    spec_is_row_major, spec_has_direct_access.
  rewrite H. reflexivity.
Qed.

(** With the classifier of the specification, the selector has a [run] for
    every product classified as cache-friendly. *)
Lemma spec_mode_selector_defined p :
  Dynamic <> 1 ->
  consistent_traits (traits (m_lhs p)) -> consistent_traits (traits (m_rhs p)) ->
  spec_product_mode (traits (m_lhs p)) (traits (m_rhs p)) = CacheFriendlyProduct ->
  selector_defined (selector_tags p) = true.
Proof.
  intros Hdyn (Hlr & _ & Hla) (_ & Hrc & Hra).
  unfold spec_product_mode, spec_is_vector, spec_is_row_major, spec_has_direct_access,
    IsVectorAtCompileTime, selector_defined.
  rewrite select_by_cases_correct. unfold select_by_cases, selector_tags.
  cbn [LhsRows RhsCols LhsOrder RhsOrder LhsHasDirectAccess RhsHasDirectAccess].
  unfold Product_RowsAtCompileTime, Product_ColsAtCompileTime, LhsFlags, RhsFlags.
  rewrite Hla, Hra.
  destruct (Z.eqb_spec (RowsAtCompileTime (traits (m_lhs p))) 1) as [Hl1|Hl1];
    destruct (Z.eqb_spec (ColsAtCompileTime (traits (m_rhs p))) 1) as [Hr1|Hr1];
    try (rewrite (Hlr Hl1)); try (rewrite (Hrc Hr1));
    destruct (MaxColsAtCompileTime (traits (m_lhs p)) =? Dynamic);
    destruct (Z.eqb_spec 1 Dynamic); try congruence;
    destruct (has_bit (Flags (traits (m_lhs p))) RowMajorBit);
    destruct (has_bit (Flags (traits (m_lhs p))) DirectAccessBit);
    destruct (has_bit (Flags (traits (m_rhs p))) RowMajorBit);
    destruct (has_bit (Flags (traits (m_rhs p))) DirectAccessBit);
    cbn; rewrite ?orb_true_r, ?andb_false_r, ?orb_false_r; cbn;
    try reflexivity; try discriminate;
    repeat match goal with
           | |- context [if ?b then _ else _] => destruct b; cbn
           end; try reflexivity; try discriminate.
Qed.

(** X16. With [ei_product_mode], a product that is classified as
    cache-friendly and whose operands are stored as they are has a [run] in
    the kernel selector, unless its left operand has one row and the
    selector resolves to the discarded specialization for a vector times a
    column-major operand without direct access. *)
Lemma ei_product_mode_selector_defined p :
  Dynamic <> 1 ->
  consistent_traits (traits (m_lhs p)) -> consistent_traits (traits (m_rhs p)) ->
  ei_product_mode (traits (m_lhs p)) (traits (m_rhs p)) = CacheFriendlyProduct ->
  selector_defined (selector_tags p) = true \/
  (RowsAtCompileTime (traits (m_lhs p)) = 1 /\
   select (selector_tags p) = Specialized discarded_vector_times_colmajor_nodirect).
Proof.
  intros Hdyn (Hlr & _ & Hla) (_ & Hrc & Hra).
  unfold ei_product_mode, LhsIsVectorAtCompileTime, IsVectorAtCompileTime, selector_defined.
  rewrite select_by_cases_correct. unfold select_by_cases, selector_tags.
  cbn [LhsRows RhsCols LhsOrder RhsOrder LhsHasDirectAccess RhsHasDirectAccess].
  unfold Product_RowsAtCompileTime, Product_ColsAtCompileTime, LhsFlags, RhsFlags.
  rewrite Hla, Hra.
  destruct (Z.eqb_spec (RowsAtCompileTime (traits (m_lhs p))) 1) as [Hl1|Hl1];
    destruct (Z.eqb_spec (ColsAtCompileTime (traits (m_rhs p))) 1) as [Hr1|Hr1];
    try (rewrite (Hlr Hl1)); try (rewrite (Hrc Hr1));
    destruct (MaxColsAtCompileTime (traits (m_lhs p)) =? Dynamic);
    destruct (Z.eqb_spec 1 Dynamic); try congruence;
    destruct (has_bit (Flags (traits (m_lhs p))) RowMajorBit);
    destruct (has_bit (Flags (traits (m_lhs p))) DirectAccessBit);
    destruct (has_bit (Flags (traits (m_rhs p))) RowMajorBit);
    destruct (has_bit (Flags (traits (m_rhs p))) DirectAccessBit);
    cbn; rewrite ?orb_true_r, ?andb_false_r, ?orb_false_r; cbn;
    try (left; reflexivity); try discriminate;
    repeat match goal with
           | |- context [if ?b then _ else _] => destruct b; cbn
           end;
    try (left; reflexivity); try discriminate;
    intros _; right; split; reflexivity || assumption.
Qed.

End ClassifierProperties.

(** *** The packet evaluator *)

Section PacketProperties.

Context {K : Constants}.
Context {Scalar Packet : Type}.
Context {SO : ScalarOps Scalar}.
Context {PO : PacketOps Scalar Packet}.
Context {PL : PacketLoadOps Scalar Packet}.

Local Notation "x [+] y" := (add x y) (at level 50, left associativity).
Local Notation "x [*] y" := (mul x y) (at level 40, left associativity).

Implicit Types (lhs rhs : Operand Scalar Packet) (p : Product Scalar Packet).

Lemma packet_impl_rec_eq (depth : nat) (order : StorageOrder) (Index LoadMode row col : Z)
    lhs rhs (res : Packet) :
  packet_impl_rec depth order Index LoadMode row col lhs rhs res =
  if Index =? Dynamic then packet_impl_Dynamic order LoadMode row col lhs rhs res
  else if Index =? 0 then packet_impl_0 order LoadMode row col lhs rhs res
  else
    match depth with
    | O => CompileError
    | S depth' =>
        res' <- packet_impl_rec depth' order (Index - 1) LoadMode row col lhs rhs res ;;
        Ok (packet_step order LoadMode row col lhs rhs Index res')
    end.
Proof.
  destruct depth; reflexivity.
Qed.

Lemma packet_impl_0_first (order : StorageOrder) (LoadMode row col : Z) lhs rhs (res : Packet) :
  packet_impl_0 order LoadMode row col lhs rhs res
  = Ok (first_packet order LoadMode row col lhs rhs).
Proof.
  destruct order; reflexivity.
Qed.

Lemma packet_unrolled_chain (order : StorageOrder) (n : nat) :
  forall (depth : nat) (LoadMode row col : Z) lhs rhs (res : Packet),
    (n <= depth)%nat ->
    Z.of_nat n < Dynamic ->
    packet_impl_rec depth order (Z.of_nat n) LoadMode row col lhs rhs res
    = Ok (fold_left (fun res i => packet_step order LoadMode row col lhs rhs i res)
            (Zrange 1 n) (first_packet order LoadMode row col lhs rhs)).
Proof.
  induction n as [|n IH]; intros depth LoadMode row col lhs rhs res Hdepth Hdyn.
  - rewrite packet_impl_rec_eq.
    replace (Z.of_nat 0 =? Dynamic) with false by (symmetry; apply Z.eqb_neq; lia).
    apply packet_impl_0_first.
  - rewrite packet_impl_rec_eq.
    replace (Z.of_nat (S n) =? Dynamic) with false by (symmetry; apply Z.eqb_neq; lia).
    replace (Z.of_nat (S n) =? 0) with false by (symmetry; apply Z.eqb_neq; lia).
    destruct depth as [|depth]; [lia|].
    replace (Z.of_nat (S n) - 1) with (Z.of_nat n) by lia.
    rewrite IH by lia. cbn [bind].
    rewrite Zrange_snoc, fold_left_app. cbn [fold_left].
    replace (1 + Z.of_nat n) with (Z.of_nat (S n)) by lia.
    reflexivity.
Qed.

Lemma packet_dynamic_loop (order : StorageOrder) (LoadMode row col : Z) lhs rhs (res : Packet) :
  0 < cols_of lhs ->
  packet_impl_Dynamic order LoadMode row col lhs rhs res
  = Ok (packet_sum order LoadMode row col lhs rhs (cols_of lhs)).
Proof.
  intros Hpos. unfold packet_impl_Dynamic, ei_assert.
  replace (cols_of lhs >? 0) with true by (symmetry; apply Z.gtb_lt; lia).
  rewrite packet_impl_0_first. cbn [bind]. rewrite for_loop_fold. reflexivity.
Qed.

Lemma packet_dynamic_instance (order : StorageOrder) (LoadMode row col : Z) lhs rhs
    (res : Packet) :
  ei_product_packet_impl order Dynamic LoadMode row col lhs rhs res
  = packet_impl_Dynamic order LoadMode row col lhs rhs res.
Proof.
  unfold ei_product_packet_impl. rewrite packet_impl_rec_eq, Z.eqb_refl. reflexivity.
Qed.

Lemma packet_unrolled_sum (order : StorageOrder) (N LoadMode row col : Z) lhs rhs
    (res : Packet) :
  0 < N -> N - 1 < Dynamic ->
  ei_product_packet_impl order (N - 1) LoadMode row col lhs rhs res
  = Ok (packet_sum order LoadMode row col lhs rhs N).
Proof.
  intros HN Hdyn. unfold ei_product_packet_impl.
  replace (N - 1) with (Z.of_nat (Z.to_nat (N - 1))) at 2 by lia.
  rewrite packet_unrolled_chain.
  - reflexivity.
  - unfold instantiation_depth. lia.
  - lia.
Qed.

(** X1. For every compile-time inner size N > 0 (a static size, so the chain
    N-1, ..., 0 stays at or below [Dynamic]), the unrolled packet evaluator
    instantiated at [Index = N-1] returns the packet that the run-time loop
    evaluator returns on operands of inner size N, for a row-major and for a
    column-major result: the first product, then one multiply-add for each
    of the indices 1 .. N-1 in this order. *)
Theorem packet_unrolled_equals_dynamic (order : StorageOrder) (N LoadMode row col : Z)
    lhs rhs (res res' : Packet) :
  0 < N -> N - 1 <= Dynamic -> cols_of lhs = N ->
  ei_product_packet_impl order (N - 1) LoadMode row col lhs rhs res
  = ei_product_packet_impl order Dynamic LoadMode row col lhs rhs res'
  /\ ei_product_packet_impl order Dynamic LoadMode row col lhs rhs res'
     = Ok (packet_sum order LoadMode row col lhs rhs N).
Proof.
  intros HN Hdyn Hcols.
  assert (Hloop : ei_product_packet_impl order Dynamic LoadMode row col lhs rhs res'
                  = Ok (packet_sum order LoadMode row col lhs rhs N)).
  { rewrite packet_dynamic_instance, packet_dynamic_loop by lia. rewrite Hcols. reflexivity. }
  split; [|exact Hloop].
  rewrite Hloop.
  destruct (Z.eq_dec (N - 1) Dynamic) as [Heq|Hne].
  - rewrite Heq, packet_dynamic_instance, packet_dynamic_loop by lia.
    rewrite Hcols. reflexivity.
  - apply packet_unrolled_sum; lia.
Qed.

(** X2. [Product::packet] of a product that is not unrolled asserts that
    the left operand has columns: with [A.cols <= 0] the assertion fails,
    with [A.cols > 0] the packet of the run-time loop is returned. *)
Theorem packet_dynamic_asserts_positive_inner_size (LoadMode : Z) p (row col : Z)
    (uninit : Packet) :
  Unroll p = false ->
  (cols_of (m_lhs p) <= 0 -> Product_packet LoadMode p row col uninit = AssertFail) /\
  (0 < cols_of (m_lhs p) ->
   Product_packet LoadMode p row col uninit
   = Ok (packet_sum (if has_bit (Product_Flags p) RowMajorBit then RowMajor else ColMajor)
           LoadMode row col (m_lhs p) (m_rhs p) (cols_of (m_lhs p)))).
Proof.
  intros Hunroll. unfold Product_packet. rewrite Hunroll, packet_dynamic_instance.
  split.
  - intros Hle. unfold packet_impl_Dynamic, ei_assert.
    replace (cols_of (m_lhs p) >? 0) with false; [reflexivity|].
    symmetry. rewrite Z.gtb_ltb. apply Z.ltb_ge. lia.
  - intros Hpos. apply packet_dynamic_loop. exact Hpos.
Qed.

(** A chain of the packet evaluator that starts below [0] and below
    [Dynamic] never ends: no specialization stops it. *)
Lemma packet_impl_rec_endless (depth : nat) (order : StorageOrder) :
  forall (Index LoadMode row col : Z) lhs rhs (res : Packet),
    Index < 0 -> Index < Dynamic ->
    packet_impl_rec depth order Index LoadMode row col lhs rhs res = CompileError.
Proof.
  induction depth as [|depth IH]; intros Index LoadMode row col lhs rhs res H0 Hd;
    rewrite packet_impl_rec_eq;
    replace (Index =? Dynamic) with false by (symmetry; apply Z.eqb_neq; lia);
    replace (Index =? 0) with false by (symmetry; apply Z.eqb_neq; lia).
  - reflexivity.
  - rewrite IH by lia. reflexivity.
Qed.

(** X3. For a product whose compile-time inner size is 0, [Product::packet]
    has no instance: the unrolled packet evaluator is instantiated at
    [Index = -1], for which, unlike the coefficient evaluator, it has no
    specialization, and the chain -1, -2, ... of instantiations does not end
    at any depth. *)
Theorem packet_zero_inner_size_has_no_instance (LoadMode : Z) p (row col : Z)
    (uninit : Packet) :
  0 < Dynamic ->
  - AddCost <= EIGEN_UNROLLING_LIMIT ->
  InnerSize p = 0 ->
  Product_packet LoadMode p row col uninit = CompileError /\
  forall (depth : nat) (order : StorageOrder),
    packet_impl_rec depth order (InnerSize p - 1) LoadMode row col (m_lhs p) (m_rhs p) uninit
    = CompileError.
Proof.
  intros Hdyn Hcost Hinner.
  assert (Hunroll : Unroll p = true).
  { unfold Unroll, Product_CoeffReadCost. rewrite Hinner.
    replace (0 =? Dynamic) with false by (symmetry; apply Z.eqb_neq; lia).
    apply Z.leb_le. lia. }
  split.
  - unfold Product_packet, ei_product_packet_impl. rewrite Hunroll, Hinner.
    apply packet_impl_rec_endless; lia.
  - intros depth order. rewrite Hinner. apply packet_impl_rec_endless; lia.
Qed.

(** A lane of the accumulated packet, when the packet operations act lane
    by lane. *)
Lemma packet_fold_lane (order : StorageOrder) (LoadMode row col : Z) lhs rhs
    (lane : Packet -> Scalar) (l : Z) (indices : list Z) :
  (forall x, lane (ei_pset1 x) = x) ->
  (forall a b c, lane (ei_pmadd a b c) = lane a [*] lane b [+] lane c) ->
  (forall x y : Scalar, x [+] y = y [+] x) ->
  (forall i, In i indices ->
     lane (loaded_packet order LoadMode row col lhs rhs i)
     = loaded_coeff order row col lhs rhs i l) ->
  forall P : Packet,
    lane (fold_left (fun res i => packet_step order LoadMode row col lhs rhs i res) indices P)
    = fold_left (fun acc i =>
                   acc [+] coeff_of lhs (lane_row order row l) i
                           [*] coeff_of rhs i (lane_col order col l))
        indices (lane P).
Proof.
  intros Hset Hmadd Hcomm. induction indices as [|i indices IH]; intros Hload P.
  - reflexivity.
  - cbn [fold_left]. rewrite IH by (intros j Hj; apply Hload; right; exact Hj).
    f_equal. specialize (Hload i (or_introl eq_refl)).
    destruct order; cbn [packet_step loaded_packet loaded_coeff lane_row lane_col] in *;
      rewrite Hmadd, Hset, Hload; apply Hcomm.
Qed.

(** A lane of the packet of the evaluators, when the packet operations act
    lane by lane. *)
Lemma packet_sum_lane (order : StorageOrder) (N LoadMode row col : Z)
    lhs rhs (lane : Packet -> Scalar) (l : Z) :
  0 < N ->
  (forall x, lane (ei_pset1 x) = x) ->
  (forall a b, lane (ei_pmul a b) = lane a [*] lane b) ->
  (forall a b c, lane (ei_pmadd a b c) = lane a [*] lane b [+] lane c) ->
  (forall x y : Scalar, x [+] y = y [+] x) ->
  (forall i, 0 <= i < N ->
     lane (loaded_packet order LoadMode row col lhs rhs i)
     = loaded_coeff order row col lhs rhs i l) ->
  lane (packet_sum order LoadMode row col lhs rhs N)
  = dot_left_to_right (view lhs) (view rhs) (lane_row order row l) (lane_col order col l) N.
Proof.
  intros HN Hset Hmul Hmadd Hcomm Hload.
  unfold packet_sum, dot_left_to_right.
  rewrite (packet_fold_lane order LoadMode row col lhs rhs lane l); try assumption.
  - f_equal. specialize (Hload 0 ltac:(lia)).
    destruct order; cbn [first_packet loaded_packet loaded_coeff lane_row lane_col] in *;
      rewrite Hmul, Hset, Hload; reflexivity.
  - intros i Hi. apply Hload. apply in_Zrange in Hi. lia.
Qed.

(** X4. When the packet operations act lane by lane ([ei_pset1] broadcasts,
    [ei_pmul] multiplies, [ei_pmadd(a,b,c)] is a*b+c), scalar addition is
    commutative, and lane [l] of the packets loaded from the operand holds
    the coefficient [l] places further along the packet direction, lane [l]
    of the packet that the evaluator returns for a compile-time inner size
    N > 0 is the dot product accumulated from the left for the coefficient
    [l] places further: ([row], [col+l]) for a row-major result,
    ([row+l], [col]) for a column-major one. *)
Theorem packet_lane_is_coefficient (order : StorageOrder) (N LoadMode row col : Z)
    lhs rhs (res : Packet) (lane : Packet -> Scalar) (l : Z) :
  0 < N -> N - 1 < Dynamic ->
  (forall x, lane (ei_pset1 x) = x) ->
  (forall a b, lane (ei_pmul a b) = lane a [*] lane b) ->
  (forall a b c, lane (ei_pmadd a b c) = lane a [*] lane b [+] lane c) ->
  (forall x y : Scalar, x [+] y = y [+] x) ->
  (forall i, 0 <= i < N ->
     lane (loaded_packet order LoadMode row col lhs rhs i)
     = loaded_coeff order row col lhs rhs i l) ->
  exists P : Packet,
    ei_product_packet_impl order (N - 1) LoadMode row col lhs rhs res = Ok P /\
    lane P = dot_left_to_right (view lhs) (view rhs)
               (lane_row order row l) (lane_col order col l) N.
Proof.
  intros HN Hdyn Hset Hmul Hmadd Hcomm Hload.
  eexists. split; [apply packet_unrolled_sum; assumption|].
  apply packet_sum_lane; assumption.
Qed.

End PacketProperties.

(** *** [operator*], the flags of a product and the vectorized coefficient *)

Section NodeProperties.

Context {K : Constants}.
Context {Scalar Packet : Type}.
Context {SO : ScalarOps Scalar}.
Context {PO : PacketOps Scalar Packet}.

Local Notation "x [+] y" := (add x y) (at level 50, left associativity).
Local Notation "x [*] y" := (mul x y) (at level 40, left associativity).

Implicit Types (lhs rhs : Operand Scalar Packet) (p : Product Scalar Packet).

(** The three static assertions of [operator*] hold together exactly
    when [ProductIsValid] holds, whatever [AreVectors] and the same-size
    predicate say: these two only select the message of the error. *)
Lemma operator_times_static_asserts_iff (SameSizes : Traits -> Traits -> bool)
    (Derived OtherDerived : Traits) :
  operator_times_static_asserts SameSizes Derived OtherDerived
  = ProductIsValid Derived OtherDerived.
Proof.
  unfold operator_times_static_asserts.
  destruct (ProductIsValid Derived OtherDerived), (AreVectors Derived OtherDerived),
    (SameSizes Derived OtherDerived); reflexivity.
Qed.

(** X5. [operator*] on operands whose compile-time sizes are their run-time
    sizes: it does not compile exactly when both inner sizes are fixed and
    differ, or the real scalar types of the operands differ; when it
    compiles, the assertion of the constructor fails exactly when the
    run-time inner sizes differ, which a fixed inner size on both sides
    excludes; otherwise the result is the product of the nested operands,
    with the mode that [ei_product_mode] gives. *)
Theorem operator_times_outcome (SameSizes : Traits -> Traits -> bool)
    (ei_nested : Operand Scalar Packet -> Z -> bool -> Operand Scalar Packet)
    (RealScalar : string -> string) lhs rhs :
  well_formed lhs -> well_formed rhs ->
  let fixed_mismatch :=
    ColsAtCompileTime (traits lhs) <> Dynamic /\
    RowsAtCompileTime (traits rhs) <> Dynamic /\
    ColsAtCompileTime (traits lhs) <> RowsAtCompileTime (traits rhs) in
  let real_mismatch :=
    RealScalar (ScalarName (traits lhs)) <> RealScalar (ScalarName (traits rhs)) in
  (fixed_mismatch \/ real_mismatch ->
   operator_times SameSizes ei_nested RealScalar lhs rhs = CompileError) /\
  (~ fixed_mismatch -> ~ real_mismatch -> cols_of lhs <> rows_of rhs ->
   operator_times SameSizes ei_nested RealScalar lhs rhs = AssertFail /\
   (ColsAtCompileTime (traits lhs) = Dynamic \/ RowsAtCompileTime (traits rhs) = Dynamic)) /\
  (~ fixed_mismatch -> ~ real_mismatch -> cols_of lhs = rows_of rhs ->
   operator_times SameSizes ei_nested RealScalar lhs rhs
   = Ok {| m_lhs := LhsNested ei_nested (ei_product_mode (traits lhs) (traits rhs)) lhs rhs;
           m_rhs := RhsNested ei_nested (ei_product_mode (traits lhs) (traits rhs)) lhs rhs;
           ProductMode := ei_product_mode (traits lhs) (traits rhs) |}).
Proof.
  intros [_ Hl] [Hr _] fixed_mismatch real_mismatch. subst fixed_mismatch real_mismatch.
  unfold operator_times. rewrite operator_times_static_asserts_iff.
  unfold ProductIsValid, Product_construct, same_RealScalar, ei_assert, static_size_ok in *.
  destruct (String.eqb_spec (RealScalar (ScalarName (traits lhs)))
              (RealScalar (ScalarName (traits rhs)))) as [Hreal|Hreal];
  destruct (Z.eqb_spec (ColsAtCompileTime (traits lhs)) Dynamic) as [Hld|Hld];
    destruct (Z.eqb_spec (RowsAtCompileTime (traits rhs)) Dynamic) as [Hrd|Hrd];
    destruct (Z.eqb_spec (ColsAtCompileTime (traits lhs)) (RowsAtCompileTime (traits rhs)))
      as [Heq|Hne];
    destruct (Z.eqb_spec (cols_of lhs) (rows_of rhs)) as [Hrun|Hrun];
    cbn [orb]; repeat split; intros; try reflexivity; try tauto; try lia;
    try (exfalso; tauto); try (exfalso; lia).
Qed.

Lemma land_hereditary_removed (x h r b : Z) :
  Z.land h b = 0 -> Z.land (Z.land (Z.land x h) r) b = 0.
Proof.
  intros H. apply Z.bits_inj'. intros n _.
  assert (Hn : Z.testbit (Z.land h b) n = false) by (rewrite H; apply Z.bits_0).
  rewrite Z.land_spec in Hn. rewrite !Z.land_spec, Z.bits_0.
  destruct (Z.testbit h n), (Z.testbit b n); try discriminate;
    rewrite ?andb_false_r, ?andb_false_l; reflexivity.
Qed.

(** X6. The flags of a product have [RowMajorBit] exactly when
    [EvalToRowMajor] holds, provided that [RowMajorBit] is hereditary and
    shares no bit with the other flags that the product sets. In particular
    a cache-friendly product is row-major exactly when both operands are. *)
Theorem product_flags_row_major p :
  Z.land HereditaryBits RowMajorBit = RowMajorBit ->
  Z.land EvalBeforeAssigningBit RowMajorBit = 0 ->
  Z.land EvalBeforeNestingBit RowMajorBit = 0 ->
  Z.land PacketAccessBit RowMajorBit = 0 ->
  Z.land AlignedBit RowMajorBit = 0 ->
  has_bit (Product_Flags p) RowMajorBit = EvalToRowMajor p /\
  (ProductMode p = CacheFriendlyProduct ->
   has_bit (Product_Flags p) RowMajorBit = LhsRowMajor p && RhsRowMajor p).
Proof.
  intros Hher Hassign Hnest Hpacket Haligned.
  assert (Hflags : has_bit (Product_Flags p) RowMajorBit = EvalToRowMajor p).
  { unfold has_bit, Product_Flags.
    rewrite !Z.land_lor_distr_l, Hassign, Hnest.
    replace (Z.land (if CanVectorizeLhs p || CanVectorizeRhs p then PacketAccessBit else 0)
               RowMajorBit) with 0
      by (destruct (CanVectorizeLhs p || CanVectorizeRhs p);
          [symmetry; exact Hpacket | reflexivity]).
    rewrite <- (Z.land_assoc _ AlignedBit), Haligned, Z.land_0_r, !Z.lor_0_r.
    unfold RemovedBits.
    destruct (EvalToRowMajor p) eqn:Heval.
    - change (Z.lnot 0) with (-1). rewrite !Z.land_m1_r.
      rewrite <- !(Z.land_assoc _ HereditaryBits), Hher.
      unfold EvalToRowMajor, RhsRowMajor, has_bit in Heval.
      apply andb_true_iff in Heval. destruct Heval as [Hrhs _].
      apply negb_true_iff in Hrhs. apply Z.eqb_neq in Hrhs.
      apply negb_true_iff, Z.eqb_neq. intros Hzero.
      apply Z.lor_eq_0_iff in Hzero. apply Hrhs, Hzero.
    - rewrite <- !(Z.land_assoc _ (Z.lnot RowMajorBit)).
      rewrite (Z.land_comm (Z.lnot RowMajorBit)), Z.land_lnot_diag, !Z.land_0_r.
      reflexivity. }
  split; [exact Hflags|].
  intros Hmode. rewrite Hflags. unfold EvalToRowMajor. rewrite Hmode. apply andb_comm.
Qed.

(** X7. The flags of a product have [PacketAccessBit] exactly when one of
    [CanVectorizeLhs], [CanVectorizeRhs] holds, provided that
    [PacketAccessBit] is a flag that is not hereditary and shares no bit
    with the other flags that the product sets; and a product whose inner
    loop is vectorized ([CanVectorizeInner]) never has it, nor is it
    evaluated to a row-major result. *)
Theorem product_flags_packet_access p :
  PacketAccessBit <> 0 ->
  Z.land HereditaryBits PacketAccessBit = 0 ->
  Z.land EvalBeforeAssigningBit PacketAccessBit = 0 ->
  Z.land EvalBeforeNestingBit PacketAccessBit = 0 ->
  Z.land AlignedBit PacketAccessBit = 0 ->
  has_bit (Product_Flags p) PacketAccessBit = CanVectorizeLhs p || CanVectorizeRhs p /\
  (CanVectorizeInner p = true ->
   has_bit (Product_Flags p) PacketAccessBit = false /\ EvalToRowMajor p = false).
Proof.
  intros Hnz Hher Hassign Hnest Haligned.
  assert (Hflags : has_bit (Product_Flags p) PacketAccessBit
                   = CanVectorizeLhs p || CanVectorizeRhs p).
  { unfold has_bit, Product_Flags.
    rewrite !Z.land_lor_distr_l, Hassign, Hnest.
    rewrite <- (Z.land_assoc _ AlignedBit), Haligned, Z.land_0_r, !Z.lor_0_r.
    rewrite !(land_hereditary_removed _ _ _ _ Hher), Z.lor_0_l.
    destruct (CanVectorizeLhs p || CanVectorizeRhs p).
    - rewrite Z.land_diag. apply negb_true_iff, Z.eqb_neq. exact Hnz.
    - reflexivity. }
  split; [exact Hflags|].
  intros Hinner. rewrite Hflags.
  unfold CanVectorizeInner, CanVectorizeLhs, CanVectorizeRhs, EvalToRowMajor in *.
  destruct (LhsRowMajor p), (RhsRowMajor p); cbn in Hinner |- *;
    try discriminate; split; reflexivity.
Qed.

Lemma coeff_vectorized_unroller_rec_eq (depth : nat) (Index row col : Z) lhs rhs
    (pres : Packet) :
  coeff_vectorized_unroller_rec depth Index row col lhs rhs pres =
  if Index =? 0 then Ok (ei_pmul (packet lhs row 0) (packet rhs 0 col))
  else
    match depth with
    | O => CompileError
    | S depth' =>
        pres' <- coeff_vectorized_unroller_rec depth' (Index - PacketSize) row col lhs rhs pres ;;
        Ok (ei_padd pres' (ei_pmul (packet lhs row Index) (packet rhs Index col)))
    end.
Proof.
  destruct depth; reflexivity.
Qed.

(** The chain of the vectorized unroller ends only from a multiple of the
    packet size that is not negative. *)
Lemma coeff_vectorized_unroller_rec_endless (depth : nat) :
  forall (Index row col : Z) lhs rhs (pres : Packet),
    0 < PacketSize ->
    Index < 0 \/ Index mod PacketSize <> 0 ->
    coeff_vectorized_unroller_rec depth Index row col lhs rhs pres = CompileError.
Proof.
  induction depth as [|depth IH]; intros Index row col lhs rhs pres Hsize HIndex;
    rewrite coeff_vectorized_unroller_rec_eq;
    (destruct (Z.eqb_spec Index 0) as [H0|H0];
     [subst; rewrite Z.mod_0_l in HIndex by lia; lia|]).
  - reflexivity.
  - rewrite IH; [reflexivity|assumption|].
    destruct HIndex as [Hneg|Hmod]; [left; lia|right].
    replace (Index - PacketSize) with (Index + (-1) * PacketSize) by lia.
    rewrite Z.mod_add by lia. exact Hmod.
Qed.

(** The chain from the [n]-th multiple of the packet size adds the products
    of the packets at the multiples 1 .. n to the product of the packets at
    0. *)
Lemma coeff_vectorized_unroller_chain (n : nat) :
  forall (depth : nat) (row col : Z) lhs rhs (pres : Packet),
    0 < PacketSize -> (n <= depth)%nat ->
    coeff_vectorized_unroller_rec depth (PacketSize * Z.of_nat n) row col lhs rhs pres
    = Ok (fold_left
            (fun acc s => ei_padd acc (ei_pmul (packet lhs row s) (packet rhs s col)))
            (map (fun j => PacketSize * Z.of_nat j) (seq 1 n))
            (ei_pmul (packet lhs row 0) (packet rhs 0 col))).
Proof.
  induction n as [|n IH]; intros depth row col lhs rhs pres Hsize Hdepth;
    rewrite coeff_vectorized_unroller_rec_eq.
  - rewrite Z.mul_0_r. reflexivity.
  - replace (PacketSize * Z.of_nat (S n) =? 0) with false
      by (symmetry; apply Z.eqb_neq; nia).
    destruct depth as [|depth]; [lia|].
    replace (PacketSize * Z.of_nat (S n) - PacketSize) with (PacketSize * Z.of_nat n) by lia.
    rewrite IH by (assumption || lia). cbn [bind].
    rewrite seq_S, map_app, fold_left_app. reflexivity.
Qed.

(** X8. The inner-vectorized coefficient evaluator for a compile-time inner
    size that is [n+1] packets long, below [Dynamic]: it returns the
    reduction [ei_predux] of the packet accumulator, which is the product of
    the packets at inner index 0 to which the products of the packets at the
    inner indices PacketSize, 2*PacketSize, ..., n*PacketSize are added in
    this order. The result of the scalar evaluator that it also runs is
    overwritten, as is what [res] held. *)
Theorem inner_vectorization_reduces_packet_sum (n : nat) (row col : Z) lhs rhs (res : Scalar) :
  0 < PacketSize ->
  PacketSize * Z.of_nat (S n) - 1 < Dynamic ->
  ei_product_coeff_impl InnerVectorization (PacketSize * Z.of_nat (S n) - 1)
    row col lhs rhs res
  = Ok (ei_predux
          (fold_left
             (fun acc s => ei_padd acc (ei_pmul (packet lhs row s) (packet rhs s col)))
             (map (fun j => PacketSize * Z.of_nat j) (seq 1 n))
             (ei_pmul (packet lhs row 0) (packet rhs 0 col)))).
Proof.
  intros Hsize Hdyn. cbn [ei_product_coeff_impl]. unfold coeff_impl_InnerVectorization.
  replace (PacketSize * Z.of_nat (S n) - 1 =? Dynamic) with false
    by (symmetry; apply Z.eqb_neq; lia).
  replace (PacketSize * Z.of_nat (S n) - 1 + 1 - PacketSize)
    with (PacketSize * Z.of_nat n) by lia.
  unfold coeff_vectorized_unroller.
  rewrite coeff_vectorized_unroller_chain by (assumption || nia). cbn [bind].
  rewrite (unrolled_sum (PacketSize * Z.of_nat (S n))) by (assumption || nia).
  reflexivity.
Qed.

(** X9. A product whose inner loop is vectorized and whose compile-time
    inner size is 0 has no coefficient evaluator: the vectorized unroller is
    instantiated at [-PacketSize] and its chain of instantiations does not
    end at any depth, before the specialization of the scalar evaluator for
    [-1] is reached. *)
Theorem inner_vectorization_zero_inner_size_has_no_instance p (row col : Z) (uninit : Scalar) :
  0 < PacketSize ->
  Dynamic <> 0 -> Dynamic <> -1 ->
  - AddCost <= EIGEN_UNROLLING_LIMIT ->
  InnerSize p = 0 ->
  CanVectorizeInner p = true ->
  coeff p row col uninit = CompileError /\
  forall (depth : nat) (pres : Packet),
    coeff_vectorized_unroller_rec depth (ScalarCoeffImpl_Index p + 1 - PacketSize)
      row col (m_lhs p) (m_rhs p) pres = CompileError.
Proof.
  intros Hsize Hd0 Hd1 Hcost Hinner Hvec.
  assert (Hunroll : Unroll p = true).
  { unfold Unroll, Product_CoeffReadCost. rewrite Hinner.
    replace (0 =? Dynamic) with false by (symmetry; apply Z.eqb_neq; lia).
    apply Z.leb_le. lia. }
  assert (Hindex : ScalarCoeffImpl_Index p = -1).
  { unfold ScalarCoeffImpl_Index. rewrite Hunroll, Hinner. reflexivity. }
  split.
  - unfold coeff, ScalarCoeffImpl, ScalarCoeffImpl_mode. rewrite Hvec, Hindex.
    cbn [ei_product_coeff_impl]. unfold coeff_impl_InnerVectorization.
    replace (-1 =? Dynamic) with false by (symmetry; apply Z.eqb_neq; lia).
    unfold coeff_vectorized_unroller.
    rewrite coeff_vectorized_unroller_rec_endless by (assumption || (left; lia)).
    reflexivity.
  - intros depth pres. rewrite Hindex.
    apply coeff_vectorized_unroller_rec_endless; [assumption | left; lia].
Qed.

(** X10. A product with a dynamic inner size whose inner loop is vectorized
    computes [coeff(row,col)] as the dot product kernel [ei_dot_impl] of row
    [row] of the left operand and column [col] of the right operand, for
    every index that is valid (row 0 of a row vector, column 0 of a column
    vector); the specializations for vectors only avoid taking the block.
    No assertion of [Product.h] guards this path: an inner size 0 at run
    time reaches the kernel. *)
Theorem inner_vectorization_dynamic_is_dot p (row col : Z) (uninit : Scalar) :
  EIGEN_UNROLLING_LIMIT < Dynamic ->
  InnerSize p = Dynamic ->
  CanVectorizeInner p = true ->
  (RowsAtCompileTime (traits (m_lhs p)) = 1 -> row = 0) ->
  (ColsAtCompileTime (traits (m_rhs p)) = 1 -> col = 0) ->
  coeff p row col uninit
  = Ok (ei_dot_impl (row_block (m_lhs p) row) (col_block (m_rhs p) col)).
Proof.
  intros Hlimit Hinner Hvec Hrow Hcol.
  assert (Hunroll : Unroll p = false).
  { unfold Unroll, Product_CoeffReadCost. rewrite Hinner, Z.eqb_refl.
    apply Z.leb_gt. exact Hlimit. }
  unfold coeff, ScalarCoeffImpl, ScalarCoeffImpl_mode, ScalarCoeffImpl_Index.
  rewrite Hvec, Hunroll. cbn [ei_product_coeff_impl].
  unfold coeff_impl_InnerVectorization. rewrite Z.eqb_refl.
  unfold coeff_vectorized_dyn_selector.
  destruct (Z.eqb_spec (RowsAtCompileTime (traits (m_lhs p))) 1) as [Hl|Hl];
    destruct (Z.eqb_spec (ColsAtCompileTime (traits (m_rhs p))) 1) as [Hr|Hr];
    cbn [andb]; try rewrite (Hrow Hl); try rewrite (Hcol Hr); reflexivity.
Qed.

End NodeProperties.

(** *** Assignment and compound assignment on the lazy path *)

Section AssignmentProperties.

Context {K : Constants}.
Context {Scalar Packet : Type}.
Context {SO : ScalarOps Scalar}.
Context {PO : PacketOps Scalar Packet}.

Local Notation "x [+] y" := (add x y) (at level 50, left associativity).
Local Notation "x [*] y" := (mul x y) (at level 40, left associativity).

Implicit Types (lhs rhs : Operand Scalar Packet) (p : Product Scalar Packet).

(** The coefficient of a product evaluated by the scalar evaluator. *)
Lemma scalar_coeff_value p (row col k : Z) (uninit : Scalar) :
  EIGEN_UNROLLING_LIMIT < Dynamic ->
  well_formed (m_lhs p) -> well_formed (m_rhs p) ->
  cols_of (m_lhs p) = k -> rows_of (m_rhs p) = k -> 0 < k ->
  CanVectorizeInner p = false ->
  coeff p row col uninit
  = Ok (dot_left_to_right (view (m_lhs p)) (view (m_rhs p)) row col k).
Proof.
  intros Hlimit Hwl Hwr Hcols Hrows Hk Hvec.
  unfold coeff, ScalarCoeffImpl, ScalarCoeffImpl_mode, ScalarCoeffImpl_Index.
  rewrite Hvec. cbn [ei_product_coeff_impl].
  destruct (Unroll p) eqn:Hunroll.
  - destruct (unrolled_inner_size p k Hlimit Hwl Hwr Hcols Hrows Hunroll) as [Hinner Hbelow].
    rewrite Hinner. apply unrolled_sum; lia.
  - rewrite dynamic_instance, dynamic_loop by lia. rewrite Hcols. reflexivity.
Qed.

(** A coefficient-wise assignment of an expression whose coefficients are
    all computed stores every one of them. *)
Lemma assign_fold_ok (e : Z -> Z -> Exec Scalar) (g : Z -> Z -> Scalar) (l : list (Z * Z)) :
  (forall i j, In (i, j) l -> e i j = Ok (g i j)) ->
  forall (P : Z -> Z -> Prop) (m : Matrix Scalar),
    (forall i j, P i j -> m_coeff m i j = g i j) ->
    exists m',
      fold_left (fun acc ij =>
        m <- acc ;; v <- e (fst ij) (snd ij) ;; Ok (set_coeff m (fst ij) (snd ij) v)) l (Ok m)
      = Ok m' /\
      m_rows m' = m_rows m /\ m_cols m' = m_cols m /\
      forall i j, P i j \/ In (i, j) l -> m_coeff m' i j = g i j.
Proof.
  induction l as [|[a b] l IH]; intros He P m Hm.
  - exists m. cbn. repeat split. intros i j [H|[]]. apply Hm, H.
  - cbn [fold_left bind fst snd]. rewrite (He a b) by (left; reflexivity). cbn [bind].
    destruct (IH (fun i j H => He i j (or_intror H))
                 (fun i j => P i j \/ (i = a /\ j = b))
                 (set_coeff m a b (g a b))) as [m' [Hfold [Hr [Hc Hcoeff]]]].
    + intros i j [HP|[Hi Hj]]; cbn.
      * destruct ((i =? a) && (j =? b)) eqn:Hab; [|apply Hm, HP].
        apply andb_true_iff in Hab. destruct Hab as [Hi Hj].
        apply Z.eqb_eq in Hi. apply Z.eqb_eq in Hj. subst. reflexivity.
      * subst. rewrite !Z.eqb_refl. reflexivity.
    + exists m'. repeat split; try assumption.
      intros i j [HP|[Hhead|Htail]]; apply Hcoeff; [tauto| |tauto].
      inversion Hhead; subst. tauto.
Qed.

Lemma assign_coeffs_ok (dst : Matrix Scalar) (e : Z -> Z -> Exec Scalar)
    (g : Z -> Z -> Scalar) :
  (forall i j, 0 <= i < m_rows dst -> 0 <= j < m_cols dst -> e i j = Ok (g i j)) ->
  exists M, assign_coeffs dst e = Ok M /\
    m_rows M = m_rows dst /\ m_cols M = m_cols dst /\
    forall i j, 0 <= i < m_rows dst -> 0 <= j < m_cols dst -> m_coeff M i j = g i j.
Proof.
  intros He. unfold assign_coeffs.
  destruct (assign_fold_ok e g (index_pairs (m_rows dst) (m_cols dst))
              (fun i j H => He i j (proj1 (proj1 (in_index_pairs _ _ i j) H))
                                   (proj2 (proj1 (in_index_pairs _ _ i j) H)))
              (fun _ _ => False) dst (fun i j (H : False) => match H with end))
    as [M [Hfold [Hr [Hc Hcoeff]]]].
  exists M. repeat split; try assumption.
  intros i j Hi Hj. apply Hcoeff. right. apply in_index_pairs. lia.
Qed.

Section ScalarLazyPath.

Variables (p : Product Scalar Packet) (k : Z).
Hypothesis Hlimit : EIGEN_UNROLLING_LIMIT < Dynamic.
Hypothesis Hwl : well_formed (m_lhs p).
Hypothesis Hwr : well_formed (m_rhs p).
Hypothesis Hcols : cols_of (m_lhs p) = k.
Hypothesis Hrows : rows_of (m_rhs p) = k.
Hypothesis Hk : 0 < k.
Hypothesis Hvec : CanVectorizeInner p = false.
Hypothesis Hlazy : _useCacheFriendlyProduct p = false.
Hypothesis Hrun : selector_defined (selector_tags p) = true.

(** X11. The assignment [dst = A*B] of a cache-friendly product for which
    the kernel selector has a [run] (the call is compiled although it is not
    executed), that is below the threshold and is evaluated by the scalar
    evaluator (inner size k > 0): it succeeds, keeps the shape of the
    destination and stores in every coefficient (i,j) of the destination the
    dot product of row i of A and column j of B accumulated from the
    left. *)
Theorem lazyAssign_lazy_path_value (dst : Matrix Scalar) (junk : Z -> Z -> Scalar) :
  exists M, lazyAssign dst p junk = Ok M /\
    m_rows M = m_rows dst /\ m_cols M = m_cols dst /\
    forall i j, 0 <= i < m_rows dst -> 0 <= j < m_cols dst ->
      m_coeff M i j = dot_left_to_right (view (m_lhs p)) (view (m_rhs p)) i j k.
Proof.
  unfold lazyAssign. rewrite with_selector_run_defined by exact Hrun.
  rewrite Hlazy. unfold Product_new, ei_assert.
  rewrite Hcols, Hrows, Z.eqb_refl. cbn [bind].
  unfold lazyAssign_NormalProduct. apply assign_coeffs_ok.
  intros i j _ _.
  apply (scalar_coeff_value
           {| m_lhs := m_lhs p; m_rhs := m_rhs p; ProductMode := NormalProduct |});
    assumption.
Qed.

Lemma nested_product_lazy_path_value (junk : Z -> Z -> Scalar) :
  exists T, nested_product p junk = Ok T /\
    forall i j, 0 <= i < rows p -> 0 <= j < cols p ->
      m_coeff T i j = dot_left_to_right (view (m_lhs p)) (view (m_rhs p)) i j k.
Proof.
  unfold nested_product, lazyAssign. rewrite with_selector_run_defined by exact Hrun.
  rewrite Hlazy. unfold Product_new, ei_assert.
  rewrite Hcols, Hrows, Z.eqb_refl. cbn [bind].
  unfold lazyAssign_NormalProduct.
  destruct (assign_coeffs_ok
              {| m_rows := rows p; m_cols := cols p; m_coeff := junk |}
              (fun i j => coeff {| m_lhs := m_lhs p; m_rhs := m_rhs p;
                                   ProductMode := NormalProduct |} i j (junk i j))
              (fun i j => dot_left_to_right (view (m_lhs p)) (view (m_rhs p)) i j k))
    as [T [HT [_ [_ Hcoeff]]]].
  - intros i j _ _.
    apply (scalar_coeff_value
             {| m_lhs := m_lhs p; m_rhs := m_rhs p; ProductMode := NormalProduct |});
      assumption.
  - exists T. split; [exact HT | exact Hcoeff].
Qed.

(** X12. [C += A*B] for a destination of the shape of the product, when
    the kernel selector has a [run] for the product, below the threshold
    and with the scalar evaluator: it succeeds, keeps the
    shape of C and stores in every coefficient (i,j) the sum of the old
    coefficient and of the dot product of row i of A and column j of B,
    which is accumulated on its own before it is added. *)
Theorem operator_plus_eq_lazy_path_value (C : Matrix Scalar) (junk : Z -> Z -> Scalar) :
  m_rows C = rows p -> m_cols C = cols p ->
  exists M, operator_plus_eq C p junk = Ok M /\
    m_rows M = m_rows C /\ m_cols M = m_cols C /\
    forall i j, 0 <= i < m_rows C -> 0 <= j < m_cols C ->
      m_coeff M i j
      = m_coeff C i j [+] dot_left_to_right (view (m_lhs p)) (view (m_rhs p)) i j k.
Proof.
  intros HCr HCc. unfold operator_plus_eq, sum_with_product.
  rewrite with_selector_run_defined by exact Hrun. rewrite Hlazy.
  destruct (nested_product_lazy_path_value junk) as [T [HT Hcoeff]].
  rewrite HT. cbn [bind]. eexists. split; [reflexivity|].
  cbn [lazyAssign_expression m_rows m_cols m_coeff]. repeat split.
  intros i j Hi Hj. rewrite Hcoeff by lia. reflexivity.
Qed.

(** X13. [C -= A*B] for a destination of the shape of the product, when
    the kernel selector has a [run] for the product, below the threshold
    and with the scalar evaluator: it succeeds without
    reaching any assertion on alpha, keeps the shape of C and stores in
    every coefficient (i,j) the difference of the old coefficient and of the
    dot product of row i of A and column j of B. *)
Theorem operator_minus_eq_lazy_path_value (C : Matrix Scalar) (junk : Z -> Z -> Scalar) :
  m_rows C = rows p -> m_cols C = cols p ->
  exists M, operator_minus_eq C p junk = Ok M /\
    m_rows M = m_rows C /\ m_cols M = m_cols C /\
    forall i j, 0 <= i < m_rows C -> 0 <= j < m_cols C ->
      m_coeff M i j
      = sub (m_coeff C i j) (dot_left_to_right (view (m_lhs p)) (view (m_rhs p)) i j k).
Proof.
  intros HCr HCc. unfold operator_minus_eq, difference_with_product.
  rewrite with_selector_run_defined by exact Hrun. rewrite Hlazy.
  destruct (nested_product_lazy_path_value junk) as [T [HT Hcoeff]].
  rewrite HT. cbn [bind]. eexists. split; [reflexivity|].
  cbn [lazyAssign_expression m_rows m_cols m_coeff]. repeat split.
  intros i j Hi Hj. rewrite Hcoeff by lia. reflexivity.
Qed.

End ScalarLazyPath.





(** X15. The assignment [dst = A*B] on the cache-friendly path through
    the two loops of the selector (a column-major expression without direct
    access times a vector, a vector times a row-major expression without
    direct access), when [Scalar(1) == Scalar(1)] holds: the assertion on
    alpha passes, the shape of the destination is kept, and every
    coefficient is the sum of the terms [rhs(k) * A(i,k)] (respectively
    [lhs(j) * B(j,c)]) added one after the other to [Scalar(0)], whatever
    the destination held. *)
Theorem lazyAssign_nodirect_paths_from_zero p (dst : Matrix Scalar) (junk : Z -> Z -> Scalar) :
  _useCacheFriendlyProduct p = true ->
  eqb (of_int 1) (of_int 1) = true ->
  (select (selector_tags p) = Specialized colmajor_nodirect_times_vector ->
   exists M, lazyAssign dst p junk = Ok M /\
     m_rows M = m_rows dst /\ m_cols M = m_cols dst /\
     forall i j,
       m_coeff M i j
       = fold_left (fun acc k => acc [+] coeff_of (m_rhs p) k 0 [*] coeff_of (m_lhs p) i k)
           (Zrange 0 (Z.to_nat (rows_of (m_rhs p)))) (of_int 0)) /\
  (select (selector_tags p) = Specialized vector_times_rowmajor_nodirect ->
   exists M, lazyAssign dst p junk = Ok M /\
     m_rows M = m_rows dst /\ m_cols M = m_cols dst /\
     forall i c,
       m_coeff M i c
       = fold_left (fun acc j => acc [+] coeff_of (m_lhs p) 0 j [*] coeff_of (m_rhs p) j c)
           (Zrange 0 (Z.to_nat (cols_of (m_lhs p)))) (of_int 0)).
Proof.
  intros Huse Hone.
  unfold lazyAssign, with_selector_run, selector_defined, selector_run. rewrite Huse.
  split; intros Hsel; rewrite Hsel; cbn [declares_run].
  - destruct (run_colmajor_nodirect_unit p (setZero dst) (of_int 1) Hone)
      as [M [HM [Hr [Hc Hcoeff]]]].
    exists M. repeat split; assumption.
  - destruct (run_rowmajor_nodirect_unit p (setZero dst) (of_int 1) Hone)
      as [M [HM [Hr [Hc Hcoeff]]]].
    exists M. repeat split; assumption.
Qed.

End AssignmentProperties.

(** *** [Product::packet] against [Product::coeff], and the bound of unrolling *)

Section PacketAgainstCoefficient.

Context {K : Constants}.
Context {Scalar Packet : Type}.
Context {SO : ScalarOps Scalar}.
Context {PO : PacketOps Scalar Packet}.
Context {PL : PacketLoadOps Scalar Packet}.

Local Notation "x [+] y" := (add x y) (at level 50, left associativity).
Local Notation "x [*] y" := (mul x y) (at level 40, left associativity).

Implicit Types (lhs rhs : Operand Scalar Packet) (p : Product Scalar Packet).

(** X18. [Product::packet] agrees with [Product::coeff]: for a product with
    inner size k > 0 that is evaluated by the scalar evaluator, when the
    packet operations act lane by lane, scalar addition is commutative and
    lane [l] of the packets loaded from the operand holds the coefficient
    [l] places further, [packet(row,col)] succeeds and its lane [l] is the
    value that [coeff] returns for the coefficient [l] places further along
    the storage order of the result, unrolled or not. *)
Theorem product_packet_agrees_with_coeff (LoadMode : Z) p (row col k l : Z)
    (lane : Packet -> Scalar) (uninit_p : Packet) (uninit : Scalar) :
  EIGEN_UNROLLING_LIMIT < Dynamic ->
  well_formed (m_lhs p) -> well_formed (m_rhs p) ->
  cols_of (m_lhs p) = k -> rows_of (m_rhs p) = k -> 0 < k ->
  CanVectorizeInner p = false ->
  (forall x, lane (ei_pset1 x) = x) ->
  (forall a b, lane (ei_pmul a b) = lane a [*] lane b) ->
  (forall a b c, lane (ei_pmadd a b c) = lane a [*] lane b [+] lane c) ->
  (forall x y : Scalar, x [+] y = y [+] x) ->
  (forall i, 0 <= i < k ->
     lane (loaded_packet (packet_order p) LoadMode row col (m_lhs p) (m_rhs p) i)
     = loaded_coeff (packet_order p) row col (m_lhs p) (m_rhs p) i l) ->
  exists P : Packet,
    Product_packet LoadMode p row col uninit_p = Ok P /\
    coeff p (lane_row (packet_order p) row l) (lane_col (packet_order p) col l) uninit
    = Ok (lane P).
Proof.
  intros Hlimit Hwl Hwr Hcols Hrows Hk Hvec Hset Hmul Hmadd Hcomm Hload.
  exists (packet_sum (packet_order p) LoadMode row col (m_lhs p) (m_rhs p) k).
  split.
  - unfold Product_packet. fold (packet_order p).
    destruct (Unroll p) eqn:Hunroll.
    + destruct (unrolled_inner_size p k Hlimit Hwl Hwr Hcols Hrows Hunroll)
        as [Hinner Hbelow].
      rewrite Hinner. apply packet_unrolled_sum; lia.
    + rewrite packet_dynamic_instance, packet_dynamic_loop by lia.
      rewrite Hcols. reflexivity.
  - rewrite (scalar_coeff_value p _ _ k) by assumption.
    f_equal. symmetry. apply packet_sum_lane; assumption.
Qed.

(** X19. Unrolling is bounded: when the cost of a multiplication and of the
    two coefficient reads is at least 1 and the cost of an addition is not
    negative, a product that is unrolled has a compile-time inner size that
    is at most [EIGEN_UNROLLING_LIMIT] and is not [Dynamic]; if this size is
    positive, the scalar evaluator is instantiated for it and returns a
    value, whatever the run-time sizes of the operands are. *)
Theorem unrolled_inner_size_is_bounded p (row col : Z) (uninit : Scalar) :
  0 <= EIGEN_UNROLLING_LIMIT < Dynamic ->
  0 <= AddCost ->
  1 <= MulCost + CoeffReadCost (traits (m_lhs p)) + CoeffReadCost (traits (m_rhs p)) ->
  Unroll p = true ->
  InnerSize p <= EIGEN_UNROLLING_LIMIT /\ InnerSize p <> Dynamic /\
  (0 < InnerSize p -> CanVectorizeInner p = false ->
   coeff p row col uninit
   = Ok (dot_left_to_right (view (m_lhs p)) (view (m_rhs p)) row col (InnerSize p))).
Proof.
  intros Hlimit Hadd Hcost Hunroll.
  assert (Hcosts : InnerSize p <> Dynamic /\ InnerSize p <= EIGEN_UNROLLING_LIMIT).
  { unfold Unroll, Product_CoeffReadCost in Hunroll.
    destruct (Z.eqb_spec (InnerSize p) Dynamic) as [Hd|Hd];
      apply Z.leb_le in Hunroll; [lia|].
    split; [exact Hd|]. nia. }
  destruct Hcosts as [Hd Hle]. repeat split; try assumption.
  intros Hpos Hvec.
  unfold coeff, ScalarCoeffImpl, ScalarCoeffImpl_mode, ScalarCoeffImpl_Index.
  rewrite Hvec, Hunroll. cbn [ei_product_coeff_impl].
  apply unrolled_sum; lia.
Qed.

End PacketAgainstCoefficient.

(** ** The properties on concrete products *)

Section ExactExamples.

#[local] Existing Instance sample_constants.
#[local] Existing Instance exact_scalars.
#[local] Existing Instance exact_packets.

(** C1 on [[1,2],[3,4]] times [[5,6],[7,8]]: the coefficient (0,0) is 19. *)
Lemma coeff_scalar_path_left_to_right_witness :
  cols_of (m_lhs product_2x2) = 2 /\ rows_of (m_rhs product_2x2) = 2 /\
  CanVectorizeInner product_2x2 = false /\
  coeff product_2x2 0 0 0 = Ok 19.
Proof.
  split; [reflexivity|]. split; [reflexivity|]. split; [reflexivity|].
  exact (coeff_scalar_path_left_to_right product_2x2 0 0 2 0
           eq_refl
           (conj (or_introl eq_refl) (or_introl eq_refl))
           (conj (or_introl eq_refl) (or_introl eq_refl))
           eq_refl eq_refl eq_refl eq_refl).
Defined.

(** C6 on a product whose inner size is 0 at run time, and on the 2-by-2
    product. *)
Lemma dynamic_path_asserts_positive_inner_size_witness :
  coeff product_empty_inner 0 0 0 = AssertFail /\
  coeff product_2x2 1 1 0 = Ok 50.
Proof.
  split.
  - destruct (dynamic_path_asserts_positive_inner_size product_empty_inner 0 0 0)
      as [Hzero _]; [reflexivity | reflexivity |].
    apply Hzero. reflexivity.
  - destruct (dynamic_path_asserts_positive_inner_size product_2x2 1 1 0)
      as [_ Hpositive]; [reflexivity | reflexivity |].
    exact (Hpositive eq_refl).
Defined.

(** C7 for N = 2 on the operands of the 2-by-2 product. *)
Lemma unrolled_equals_dynamic_witness :
  ei_product_coeff_impl NoVectorization 1 0 1 (m_lhs product_2x2) (m_rhs product_2x2) 0
  = ei_product_coeff_impl NoVectorization Dynamic 0 1 (m_lhs product_2x2) (m_rhs product_2x2) 7
  /\ ei_product_coeff_impl NoVectorization Dynamic 0 1 (m_lhs product_2x2) (m_rhs product_2x2) 7
     = Ok 22.
Proof.
  assert (Hstatic : 2 - 1 <= Dynamic) by discriminate.
  exact (unrolled_equals_dynamic 2 0 1 (m_lhs product_2x2) (m_rhs product_2x2) 0 7
           eq_refl Hstatic eq_refl).
Defined.

(** C10 on a 2-by-0 times 0-by-2 product of fixed size: the coefficient is
    what the local held, here 42. *)
Lemma zero_inner_size_returns_uninitialized_witness :
  InnerSize product_static_zero_inner = 0 /\
  ScalarCoeffImpl_mode product_static_zero_inner = NoVectorization /\
  ScalarCoeffImpl_Index product_static_zero_inner = -1 /\
  coeff product_static_zero_inner 0 0 42 = Ok 42.
Proof.
  split; [reflexivity|].
  apply (zero_inner_size_returns_uninitialized product_static_zero_inner 0 0 42).
  - discriminate.
  - discriminate.
  - discriminate.
  - reflexivity.
  - reflexivity.
Defined.

(** C10 as stated fails for a product of compile-time inner size 0 whose
    inner loop is vectorized (0 is a multiple of the packet size): the
    evaluator is the inner-vectorized one at [Index = -1], its unroller is
    instantiated at [-PacketSize] and never reaches the specialization for
    0, and [coeff] does not compile instead of returning what the local
    held. *)
Lemma zero_inner_size_vectorized_does_not_compile :
  InnerSize product_vectorized_zero_inner = 0 /\
  ScalarCoeffImpl_mode product_vectorized_zero_inner = InnerVectorization /\
  ScalarCoeffImpl_Index product_vectorized_zero_inner = -1 /\
  coeff product_vectorized_zero_inner 0 0 42 = CompileError /\
  coeff product_vectorized_zero_inner 0 0 42 <> Ok 42.
Proof.
  split; [reflexivity|]. split; [reflexivity|]. split; [reflexivity|].
  assert (Hnone : coeff product_vectorized_zero_inner 0 0 42 = CompileError)
    by (vm_compute; reflexivity).
  split; [exact Hnone|]. rewrite Hnone. discriminate.
Qed.



(** C3 on a row-major expression without direct access times a vector, and
    on a vector times a column-major expression without direct access. *)
Lemma selector_discards_nodirect_vector_products_witness :
  selector_run column_of_eights product_rowmajor_nodirect_vector 1 = CompileError /\
  select (selector_tags product_vector_colmajor_nodirect)
  = Specialized discarded_vector_times_colmajor_nodirect.
Proof.
  split.
  - pose proof (selector_discards_nodirect_vector_products
                  product_rowmajor_nodirect_vector column_of_eights 1) as [Hmat _].
    exact (proj1 (Hmat eq_refl eq_refl eq_refl)).
  - pose proof (selector_discards_nodirect_vector_products
                  product_vector_colmajor_nodirect column_of_eights 1) as [_ [Hvec _]].
    apply (proj2 (Hvec eq_refl eq_refl eq_refl)). discriminate.
Defined.

(** C3 as stated fails on both products: the selector does not reach
    [_cacheFriendlyEvalAndAdd]. *)
Lemma selector_does_not_fall_through :
  select (selector_tags product_rowmajor_nodirect_vector) <> Primary /\
  selector_run column_of_eights product_rowmajor_nodirect_vector 1
  <> _cacheFriendlyEvalAndAdd product_rowmajor_nodirect_vector column_of_eights 1 /\
  select (selector_tags product_vector_colmajor_nodirect) <> Primary /\
  selector_run destination_2x2 product_vector_colmajor_nodirect 1
  <> _cacheFriendlyEvalAndAdd product_vector_colmajor_nodirect destination_2x2 1.
Proof.
  repeat split; discriminate.
Qed.

(** C5 on a column-major expression without direct access times a vector:
    [C -= A*B] fails the assertion, [C += A*B] passes it. *)
Lemma nodirect_paths_assert_unit_alpha_witness :
  run_colmajor_nodirect_times_vector column_of_eights product_colmajor_nodirect_vector (-1)
  = AssertFail /\
  operator_minus_eq column_of_eights product_colmajor_nodirect_vector (fun _ _ => 0)
  = AssertFail /\
  exists res',
    operator_plus_eq column_of_eights product_colmajor_nodirect_vector (fun _ _ => 0) = Ok res' /\
    m_rows res' = 8 /\ m_cols res' = 1 /\
    forall i j, m_coeff res' i j
                = accumulated_columns product_colmajor_nodirect_vector column_of_eights i j.
Proof.
  pose proof (nodirect_paths_assert_unit_alpha
                product_colmajor_nodirect_vector column_of_eights (-1)) as [H1 [_ H3]].
  split; [apply H1; reflexivity|].
  specialize (H3 eq_refl (or_introl eq_refl) (fun _ _ => 0)).
  split; [apply (proj1 H3); reflexivity|].
  apply (proj2 H3). reflexivity.
Defined.

(** C8 on the lazy path (the 2-by-2 product) and on the cache-friendly path
    (the 8-by-8 expression times a vector), with exact scalars. *)
Lemma plus_eq_agrees_with_fresh_sum_witness :
  same_outcome (operator_plus_eq destination_2x2 product_2x2 (fun _ _ => 1))
               (fresh_sum destination_2x2 product_2x2 (fun _ _ => 2)) /\
  same_outcome
    (operator_plus_eq column_of_eights product_colmajor_nodirect_vector (fun _ _ => 1))
    (fresh_sum column_of_eights product_colmajor_nodirect_vector (fun _ _ => 2)).
Proof.
  split.
  - destruct (plus_eq_agrees_with_fresh_sum product_2x2 destination_2x2
                (fun _ _ => 1) (fun _ _ => 2)) as [Hlazy _];
      [reflexivity | reflexivity |].
    apply Hlazy.
    + reflexivity.
    + discriminate.
  - destruct (plus_eq_agrees_with_fresh_sum product_colmajor_nodirect_vector
                column_of_eights (fun _ _ => 1) (fun _ _ => 2)) as [_ Hcache];
      [reflexivity | reflexivity |].
    apply Hcache.
    + reflexivity.
    + intros x y z. apply Z.add_assoc.
    + intros x. apply Z.add_0_l.
    + intros x. apply Z.add_0_r.
    + discriminate.
    + split; left; reflexivity.
    + split; [left; reflexivity | right; split; [reflexivity | split; [discriminate | reflexivity]]].
Defined.

(** C2 fails on the code for a row vector of dynamic length times a
    column-major expression without direct access: the specification
    classifies the product as Normal, [ei_product_mode] as CacheFriendly,
    and the kernel selector then has no [run] for it. *)
Lemma ei_product_mode_row_vector_times_nodirect :
  spec_product_mode (traits (m_lhs product_vector_colmajor_nodirect))
                    (traits (m_rhs product_vector_colmajor_nodirect)) = NormalProduct /\
  ei_product_mode (traits (m_lhs product_vector_colmajor_nodirect))
                  (traits (m_rhs product_vector_colmajor_nodirect)) = CacheFriendlyProduct /\
  selector_run destination_2x2 product_vector_colmajor_nodirect 1 = CompileError.
Proof.
  repeat split.
Qed.

End ExactExamples.

Section RoundedExamples.

#[local] Existing Instance sample_constants.
#[local] Existing Instance rounded_scalars.
#[local] Existing Instance rounded_packets.

(** C1 as stated fails when the inner loop is vectorized: for a product
    with inner size 4 and packets of two lanes, [coeff(0,0)] adds the lanes
    (1*1 + 1*1) and (8*1 + 0*1), which gives 10, while the sum of the four
    products taken from the left is 8 in the rounded arithmetic. *)
Lemma coeff_inner_vectorization_not_left_to_right :
  cols_of (m_lhs product_1x4_4x1) = 4 /\ rows_of (m_rhs product_1x4_4x1) = 4 /\
  CanVectorizeInner product_1x4_4x1 = true /\
  coeff product_1x4_4x1 0 0 0 = Ok 10 /\
  dot_left_to_right (view (m_lhs product_1x4_4x1)) (view (m_rhs product_1x4_4x1)) 0 0 4 = 8 /\
  coeff product_1x4_4x1 0 0 0
  <> Ok (dot_left_to_right (view (m_lhs product_1x4_4x1)) (view (m_rhs product_1x4_4x1)) 0 0 4).
Proof.
  repeat split. vm_compute. discriminate.
Qed.

(** C8 as stated fails on the cache-friendly path in the rounded
    arithmetic: the destination entry 8 absorbs the two terms 1 one by one
    and stays 8, while 8 plus the product 2 is 10. *)
Lemma plus_eq_differs_from_fresh_sum :
  ei_product_mode (traits (m_lhs product_colmajor_nodirect_vector))
                  (traits (m_rhs product_colmajor_nodirect_vector)) = CacheFriendlyProduct /\
  _useCacheFriendlyProduct product_colmajor_nodirect_vector = true /\
  select (selector_tags product_colmajor_nodirect_vector)
  = Specialized colmajor_nodirect_times_vector /\
  ~ same_outcome
      (operator_plus_eq column_of_eights product_colmajor_nodirect_vector (fun _ _ => 0))
      (fresh_sum column_of_eights product_colmajor_nodirect_vector (fun _ _ => 0)).
Proof.
  split; [reflexivity|]. split; [reflexivity|]. split; [reflexivity|].
  unfold same_outcome, same_contents.
  set (a := operator_plus_eq _ _ _). set (b := fresh_sum _ _ _).
  assert (Hab : match a, b with
                | Ok X, Ok Y =>
                    m_rows X = 8 /\ m_cols X = 1 /\ m_coeff X 0 0 = 8 /\ m_coeff Y 0 0 = 10
                | _, _ => False
                end) by (vm_compute; repeat split).
  destruct a as [X| |], b as [Y| |]; try contradiction.
  destruct Hab as (Hr & Hc & HX & HY). intros (_ & _ & H).
  specialize (H 0 0). rewrite Hr, Hc, HX, HY in H.
  assert (Hfalse : 8 = 10) by (apply H; lia). discriminate Hfalse.
Qed.

End RoundedExamples.

Section MoreExactExamples.

#[local] Existing Instance sample_constants.
#[local] Existing Instance exact_scalars.
#[local] Existing Instance exact_packets.
#[local] Existing Instance exact_loads.

(** X1 for N = 2 on the operands of the 2-by-2 product, column-major. *)
Lemma packet_unrolled_equals_dynamic_witness :
  ei_product_packet_impl ColMajor 1 0 0 0 (m_lhs product_2x2) (m_rhs product_2x2) (0, 0)
  = ei_product_packet_impl ColMajor Dynamic 0 0 0 (m_lhs product_2x2) (m_rhs product_2x2) (7, 7)
  /\ ei_product_packet_impl ColMajor Dynamic 0 0 0
       (m_lhs product_2x2) (m_rhs product_2x2) (7, 7)
     = Ok (19, 43).
Proof.
  assert (Hstatic : 2 - 1 <= Dynamic) by discriminate.
  exact (packet_unrolled_equals_dynamic ColMajor 2 0 0 0
           (m_lhs product_2x2) (m_rhs product_2x2) (0, 0) (7, 7) eq_refl Hstatic eq_refl).
Defined.

(** X2 on the product whose inner size is 0 at run time and on the 2-by-2
    product. *)
Lemma packet_dynamic_asserts_positive_inner_size_witness :
  Product_packet 0 product_empty_inner 0 0 (0, 0) = AssertFail /\
  Product_packet 0 product_2x2 0 1 (0, 0) = Ok (22, 50).
Proof.
  split.
  - destruct (packet_dynamic_asserts_positive_inner_size 0 product_empty_inner 0 0 (0, 0))
      as [Hzero _]; [reflexivity|].
    apply Hzero. discriminate.
  - destruct (packet_dynamic_asserts_positive_inner_size 0 product_2x2 0 1 (0, 0))
      as [_ Hpositive]; [reflexivity|].
    exact (Hpositive eq_refl).
Defined.

(** X3 on the 2-by-0 times 0-by-2 product of fixed size. *)
Lemma packet_zero_inner_size_has_no_instance_witness :
  InnerSize product_static_zero_inner = 0 /\
  Product_packet 0 product_static_zero_inner 0 0 (0, 0) = CompileError.
Proof.
  split; [reflexivity|].
  destruct (packet_zero_inner_size_has_no_instance 0 product_static_zero_inner 0 0 (0, 0))
    as [Hnone _]; [reflexivity | discriminate | reflexivity |].
  exact Hnone.
Defined.

(** X4 on the operands of the 2-by-2 product: the second lane of the
    column-major packet at (0,0) is the coefficient (1,0), which is 43. *)
Lemma packet_lane_is_coefficient_witness :
  exists P : Z * Z,
    ei_product_packet_impl ColMajor (2 - 1) 0 0 0
      (m_lhs product_2x2) (m_rhs product_2x2) (0, 0) = Ok P /\
    snd P = 43.
Proof.
  destruct (packet_lane_is_coefficient ColMajor 2 0 0 0
              (m_lhs product_2x2) (m_rhs product_2x2) (0, 0) snd 1)
    as [P [HP Hlane]].
  - reflexivity.
  - reflexivity.
  - intros x. reflexivity.
  - intros a b. reflexivity.
  - intros a b c. reflexivity.
  - intros x y. apply Z.add_comm.
  - intros i Hi. reflexivity.
  - exists P. split; [exact HP | exact Hlane].
Defined.

(** X5 on the operands of the 2-by-2 product, stored as they are, with
    every scalar type its own real scalar type. *)
Lemma operator_times_outcome_witness :
  operator_times (fun _ _ => false) (fun x _ _ => x) (fun s => s)
    (m_lhs product_2x2) (m_rhs product_2x2)
  = Ok product_2x2.
Proof.
  destruct (operator_times_outcome (fun _ _ => false) (fun x _ _ => x) (fun s => s)
              (m_lhs product_2x2) (m_rhs product_2x2)) as [_ [_ Hok]].
  - split; left; reflexivity.
  - split; left; reflexivity.
  - apply Hok; [| |reflexivity].
    + intros [Hfixed _]. apply Hfixed. reflexivity.
    + intros Hreal. apply Hreal. reflexivity.
Defined.

(** X6 on the 2-by-2 product, whose operands are column-major. *)
Lemma product_flags_row_major_witness :
  has_bit (Product_Flags product_2x2) RowMajorBit = false /\
  EvalToRowMajor product_2x2 = false.
Proof.
  destruct (product_flags_row_major product_2x2) as [Hflags _];
    try reflexivity.
  split; [|reflexivity]. rewrite Hflags. reflexivity.
Defined.

(** X7 on the inner-vectorized product of a row vector and a column
    vector. *)
Lemma product_flags_packet_access_witness :
  CanVectorizeInner product_1x4_4x1 = true /\
  has_bit (Product_Flags product_1x4_4x1) PacketAccessBit = false /\
  EvalToRowMajor product_1x4_4x1 = false.
Proof.
  split; [reflexivity|].
  destruct (product_flags_packet_access product_1x4_4x1) as [_ Hinner];
    try reflexivity; try discriminate.
  apply Hinner. reflexivity.
Defined.

(** X8 on the product of the row vector (1 8 1 0) and the column of ones,
    whose inner size is two packets: the lanes are 1+1 and 8+0. *)
Lemma inner_vectorization_reduces_packet_sum_witness :
  ei_product_coeff_impl InnerVectorization 3 0 0
    (m_lhs product_1x4_4x1) (m_rhs product_1x4_4x1) 0
  = Ok 10.
Proof.
  exact (inner_vectorization_reduces_packet_sum 1 0 0
           (m_lhs product_1x4_4x1) (m_rhs product_1x4_4x1) 0 eq_refl eq_refl).
Defined.

(** X9 on the vectorized product of fixed inner size 0. *)
Lemma inner_vectorization_zero_inner_size_has_no_instance_witness :
  CanVectorizeInner product_vectorized_zero_inner = true /\
  coeff product_vectorized_zero_inner 0 0 42 = CompileError.
Proof.
  split; [reflexivity|].
  destruct (inner_vectorization_zero_inner_size_has_no_instance
              product_vectorized_zero_inner 0 0 42) as [Hnone _];
    [reflexivity | discriminate | discriminate | discriminate
    | reflexivity | reflexivity | exact Hnone].
Defined.

(** X10 on the vectorized product of dynamic size. *)
Lemma inner_vectorization_dynamic_is_dot_witness :
  coeff product_vectorized_dynamic 1 1 0 = Ok 20.
Proof.
  assert (H := inner_vectorization_dynamic_is_dot product_vectorized_dynamic 1 1 0).
  apply H; try reflexivity; intros Hone; discriminate Hone.
Defined.

(** X11 on the 2-by-2 product: the destination becomes [[19,22],[43,50]]. *)
Lemma lazyAssign_lazy_path_value_witness :
  exists M, lazyAssign destination_2x2 product_2x2 (fun _ _ => 0) = Ok M /\
    m_coeff M 0 0 = 19 /\ m_coeff M 0 1 = 22 /\ m_coeff M 1 0 = 43 /\ m_coeff M 1 1 = 50.
Proof.
  destruct (lazyAssign_lazy_path_value product_2x2 2) with
    (dst := destination_2x2) (junk := fun _ _ : Z => 0) as [M [HM [_ [_ Hcoeff]]]];
    try reflexivity; try (split; left; reflexivity).
  exists M. split; [exact HM|].
  repeat split; apply Hcoeff; split; (discriminate || reflexivity).
Defined.

(** X12 on the 2-by-2 product and the destination [[10,20],[30,40]]. *)
Lemma operator_plus_eq_lazy_path_value_witness :
  exists M, operator_plus_eq destination_2x2 product_2x2 (fun _ _ => 0) = Ok M /\
    m_coeff M 0 0 = 29 /\ m_coeff M 1 1 = 90.
Proof.
  destruct (operator_plus_eq_lazy_path_value product_2x2 2) with
    (C := destination_2x2) (junk := fun _ _ : Z => 0) as [M [HM [_ [_ Hcoeff]]]];
    try reflexivity; try (split; left; reflexivity).
  exists M. split; [exact HM|].
  split; apply Hcoeff; split; (discriminate || reflexivity).
Defined.

(** X13 on the 2-by-2 product and the destination [[10,20],[30,40]]. *)
Lemma operator_minus_eq_lazy_path_value_witness :
  exists M, operator_minus_eq destination_2x2 product_2x2 (fun _ _ => 0) = Ok M /\
    m_coeff M 0 0 = -9 /\ m_coeff M 1 1 = -10.
Proof.
  destruct (operator_minus_eq_lazy_path_value product_2x2 2) with
    (C := destination_2x2) (junk := fun _ _ : Z => 0) as [M [HM [_ [_ Hcoeff]]]];
    try reflexivity; try (split; left; reflexivity).
  exists M. split; [exact HM|].
  split; apply Hcoeff; split; (discriminate || reflexivity).
Defined.


(** X15 on the column-major expression without direct access times the
    vector of ones: every entry of the destination becomes 2. *)
Lemma lazyAssign_nodirect_paths_from_zero_witness :
  exists M,
    lazyAssign column_of_eights product_colmajor_nodirect_vector (fun _ _ => 0) = Ok M /\
    m_coeff M 3 0 = 2.
Proof.
  destruct (lazyAssign_nodirect_paths_from_zero product_colmajor_nodirect_vector
              column_of_eights (fun _ _ => 0)) as [Hcolumns _];
    try reflexivity.
  destruct (Hcolumns eq_refl) as [M [HM [_ [_ Hcoeff]]]].
  exists M. split; [exact HM|]. rewrite Hcoeff. reflexivity.
Defined.

(** X16 on the column-major expression without direct access times a
    vector, which is classified as cache-friendly and has a [run]. *)
Lemma ei_product_mode_selector_defined_witness :
  ei_product_mode (traits (m_lhs product_colmajor_nodirect_vector))
                  (traits (m_rhs product_colmajor_nodirect_vector)) = CacheFriendlyProduct /\
  (selector_defined (selector_tags product_colmajor_nodirect_vector) = true \/
   (RowsAtCompileTime (traits (m_lhs product_colmajor_nodirect_vector)) = 1 /\
    select (selector_tags product_colmajor_nodirect_vector)
    = Specialized discarded_vector_times_colmajor_nodirect)).
Proof.
  split; [reflexivity|].
  apply ei_product_mode_selector_defined.
  - discriminate.
  - repeat split; intros Hone; discriminate Hone.
  - repeat split; intros Hone; try discriminate Hone.
  - reflexivity.
Defined.

(** X18 on the 2-by-2 product: the second lane of [packet(0,1)] is what
    [coeff(1,1)] returns. *)
Lemma product_packet_agrees_with_coeff_witness :
  exists P : Z * Z,
    Product_packet 0 product_2x2 0 1 (0, 0) = Ok P /\
    coeff product_2x2 1 1 0 = Ok (snd P).
Proof.
  destruct (product_packet_agrees_with_coeff 0 product_2x2 0 1 2 1 snd (0, 0) 0)
    as [P [HP Hcoeff]].
  - reflexivity.
  - split; left; reflexivity.
  - split; left; reflexivity.
  - reflexivity.
  - reflexivity.
  - reflexivity.
  - reflexivity.
  - intros x. reflexivity.
  - intros a b. reflexivity.
  - intros a b c. reflexivity.
  - intros x y. apply Z.add_comm.
  - intros i Hi. reflexivity.
  - exists P. split; [exact HP | exact Hcoeff].
Defined.

(** X19 on the 2-by-2 product of fixed size, whose cost is 7. *)
Lemma unrolled_inner_size_is_bounded_witness :
  Unroll product_fixed_2x2 = true /\
  InnerSize product_fixed_2x2 <= EIGEN_UNROLLING_LIMIT /\
  coeff product_fixed_2x2 0 1 0 = Ok 22.
Proof.
  split; [reflexivity|].
  destruct (unrolled_inner_size_is_bounded product_fixed_2x2 0 1 0)
    as [Hbound [_ Hvalue]].
  - split; [discriminate | reflexivity].
  - discriminate.
  - discriminate.
  - reflexivity.
  - split; [exact Hbound|]. exact (Hvalue eq_refl eq_refl).
Defined.

End MoreExactExamples.
